(** * Direct-message routes of streamline-task-management

    A shallow embedding of [server/routes/directMessages.js]: the key
    provider [getEncryptionKey], the codec [encryptMessage] /
    [decryptMessage], and the Express handlers for conversations,
    threads, send, mark-read, clear and delete.

    JavaScript strings are sequences of UTF-16 code units, Node buffers
    are sequences of bytes.  The Node primitives the file imports
    ([zlib.gzipSync], [zlib.gunzipSync], the AES-256-CBC transform of
    [crypto]) are an interface ([NodeCrypto]); their documented
    contracts are the laws of [NodeCryptoLaws].  The Mongoose
    collections are lists of documents in natural order.  Console
    output is not modelled. *)

From Stdlib Require Import Ascii String.
From Stdlib Require Import List ZArith Lia Bool Sorted Permutation.
From Stdlib.Strings Require Import Byte.
Import ListNotations.
Local Open Scope Z_scope.

(* ================================================================= *)
(** ** JavaScript strings *)

Definition code_unit := Z.
Definition jsstring := list code_unit.

(** An ASCII literal as a JavaScript string. *)
Definition js (s : string) : jsstring :=
  map (fun a => Z.of_N (N_of_ascii a)) (list_ascii_of_string s).

Definition COLON : code_unit := 58.

(** [String.prototype.split] with a one-character separator. *)
Fixpoint str_split (sep : code_unit) (s : jsstring) : list jsstring :=
  match s with
  | [] => [[]]
  | c :: rest =>
      if c =? sep then [] :: str_split sep rest
      else match str_split sep rest with
           | p :: ps => (c :: p) :: ps
           | [] => [[c]]
           end
  end.

(** ECMAScript WhiteSpace and LineTerminator code units, the ones
    [String.prototype.trim] strips. *)
Definition isWhiteSpace (c : code_unit) : bool :=
  ((9 <=? c) && (c <=? 13)) || (c =? 32) || (c =? 160) || (c =? 5760)
  || ((8192 <=? c) && (c <=? 8202)) || (c =? 8232) || (c =? 8233)
  || (c =? 8239) || (c =? 8287) || (c =? 12288) || (c =? 65279).

Fixpoint trimStart (s : jsstring) : jsstring :=
  match s with
  | [] => []
  | c :: rest => if isWhiteSpace c then trimStart rest else s
  end.

Definition trimEnd (s : jsstring) : jsstring := rev (trimStart (rev s)).

Definition trim (s : jsstring) : jsstring := trimEnd (trimStart s).

(** Truthiness of a string value: the empty string is falsy. *)
Definition truthy (s : jsstring) : bool :=
  match s with [] => false | _ => true end.

(* ================================================================= *)
(** ** Node buffers *)

Definition Buffer := list byte.

Definition Z_of_byte (b : byte) : Z := Z.of_N (Byte.to_N b).

Definition byte_of_Z (z : Z) : byte :=
  match Byte.of_N (Z.to_N (z mod 256)) with
  | Some b => b
  | None => x00
  end.

(** *** [buf.toString('hex')] *)

Definition hex_digit (n : Z) : code_unit :=
  if n <? 10 then 48 + n else 87 + n.

Definition hex_of_byte (b : byte) : jsstring :=
  [hex_digit (Z_of_byte b / 16); hex_digit (Z_of_byte b mod 16)].

Definition toString_hex (buf : Buffer) : jsstring :=
  flat_map hex_of_byte buf.

(** *** [Buffer.from(s, 'hex')]

    Node decodes pair by pair and stops at the first pair that is not
    two hexadecimal digits; an odd trailing character is dropped.  Its
    decoder looks each UTF-16 unit up in a table of 256 entries, by
    the low byte of the unit: U+0130 is read as the digit 0 (0x30). *)

Definition unhex (c : code_unit) : option Z :=
  let x := c mod 256 in
  if (48 <=? x) && (x <=? 57) then Some (x - 48)
  else if (97 <=? x) && (x <=? 102) then Some (x - 87)
  else if (65 <=? x) && (x <=? 70) then Some (x - 55)
  else None.

Fixpoint from_hex (s : jsstring) : Buffer :=
  match s with
  | a :: b :: rest =>
      match unhex a, unhex b with
      | Some x, Some y => byte_of_Z (16 * x + y) :: from_hex rest
      | _, _ => []
      end
  | _ => []
  end.

(** *** UTF-8: [Buffer.from(s)] and [buf.toString()]

    A string handed to [zlib.gzipSync] is first turned into a buffer
    as UTF-8; an unpaired surrogate becomes U+FFFD.  [buf.toString()]
    decodes UTF-8, replacing every maximal ill-formed subsequence by
    U+FFFD. *)

Definition is_high_surrogate (c : Z) : bool := (55296 <=? c) && (c <=? 56319).
Definition is_low_surrogate (c : Z) : bool := (56320 <=? c) && (c <=? 57343).

Definition REPLACEMENT : Z := 65533.

Definition utf8_of_code_point (cp : Z) : Buffer :=
  if cp <? 128 then [byte_of_Z cp]
  else if cp <? 2048 then
    [byte_of_Z (192 + cp / 64); byte_of_Z (128 + cp mod 64)]
  else if cp <? 65536 then
    [byte_of_Z (224 + cp / 4096); byte_of_Z (128 + (cp / 64) mod 64);
     byte_of_Z (128 + cp mod 64)]
  else
    [byte_of_Z (240 + cp / 262144); byte_of_Z (128 + (cp / 4096) mod 64);
     byte_of_Z (128 + (cp / 64) mod 64); byte_of_Z (128 + cp mod 64)].

Fixpoint from_utf8 (s : jsstring) : Buffer :=
  match s with
  | [] => []
  | c :: rest =>
      if is_high_surrogate c then
        match rest with
        | lo :: rest' =>
            if is_low_surrogate lo
            then utf8_of_code_point
                   (65536 + (c - 55296) * 1024 + (lo - 56320))
                 ++ from_utf8 rest'
            else utf8_of_code_point REPLACEMENT ++ from_utf8 rest
        | [] => utf8_of_code_point REPLACEMENT
        end
      else if is_low_surrogate c
      then utf8_of_code_point REPLACEMENT ++ from_utf8 rest
      else utf8_of_code_point c ++ from_utf8 rest
  end.

Definition utf16_of_code_point (cp : Z) : jsstring :=
  if cp <? 65536 then [cp]
  else [55296 + (cp - 65536) / 1024; 56320 + (cp - 65536) mod 1024].

Definition in_range (lo hi : Z) (b : byte) : bool :=
  (lo <=? Z_of_byte b) && (Z_of_byte b <=? hi).

Definition cont (b : byte) : Z := Z_of_byte b - 128.

(** Bounds of the second byte after the lead byte [b0]. *)
Definition second_lo (b0 : Z) : Z :=
  if b0 =? 224 then 160 else if b0 =? 240 then 144 else 128.
Definition second_hi (b0 : Z) : Z :=
  if b0 =? 237 then 159 else if b0 =? 244 then 143 else 191.

Fixpoint toString_utf8 (buf : Buffer) : jsstring :=
  match buf with
  | [] => []
  | b0 :: r0 =>
      let z0 := Z_of_byte b0 in
      if z0 <? 128 then z0 :: toString_utf8 r0
      else if (194 <=? z0) && (z0 <=? 223) then
        match r0 with
        | b1 :: r1 =>
            if in_range 128 191 b1
            then ((z0 - 192) * 64 + cont b1) :: toString_utf8 r1
            else REPLACEMENT :: toString_utf8 r0
        | [] => [REPLACEMENT]
        end
      else if (224 <=? z0) && (z0 <=? 239) then
        match r0 with
        | b1 :: r1 =>
            if in_range (second_lo z0) (second_hi z0) b1 then
              match r1 with
              | b2 :: r2 =>
                  if in_range 128 191 b2
                  then (((z0 - 224) * 64 + cont b1) * 64 + cont b2)
                       :: toString_utf8 r2
                  else REPLACEMENT :: toString_utf8 r1
              | [] => [REPLACEMENT]
              end
            else REPLACEMENT :: toString_utf8 r0
        | [] => [REPLACEMENT]
        end
      else if (240 <=? z0) && (z0 <=? 244) then
        match r0 with
        | b1 :: r1 =>
            if in_range (second_lo z0) (second_hi z0) b1 then
              match r1 with
              | b2 :: r2 =>
                  if in_range 128 191 b2 then
                    match r2 with
                    | b3 :: r3 =>
                        if in_range 128 191 b3
                        then utf16_of_code_point
                               ((((z0 - 240) * 64 + cont b1) * 64 + cont b2)
                                * 64 + cont b3)
                             ++ toString_utf8 r3
                        else REPLACEMENT :: toString_utf8 r2
                    | [] => [REPLACEMENT]
                    end
                  else REPLACEMENT :: toString_utf8 r1
              | [] => [REPLACEMENT]
              end
            else REPLACEMENT :: toString_utf8 r0
        | [] => [REPLACEMENT]
        end
      else REPLACEMENT :: toString_utf8 r0
  end.

(** A string with no unpaired surrogate, every unit a 16-bit value:
    the strings that have a UTF-8 form. *)
Fixpoint well_formed (s : jsstring) : bool :=
  match s with
  | [] => true
  | c :: rest =>
      if is_high_surrogate c then
        match rest with
        | lo :: rest' => is_low_surrogate lo && well_formed rest'
        | [] => false
        end
      else if is_low_surrogate c then false
      else (0 <=? c) && (c <? 65536) && well_formed rest
  end.

(* ================================================================= *)
(** ** Exceptions *)

(** The errors the route file throws or receives from Node. *)
Inductive Error : Type :=
| InvalidKeyLength        (* 'Invalid encryption key length' *)
| InvalidMessageFormat    (* 'Invalid encrypted message format' *)
| CipherError             (* thrown by crypto: key, IV, block or padding *)
| ZlibError               (* thrown by zlib.gunzipSync *)
| FailedToEncrypt         (* 'Failed to encrypt message' *)
| FailedToDecrypt         (* 'Failed to decrypt message' *)
| TypeError.              (* property access on null *)

Inductive result (A : Type) : Type :=
| Ok (a : A)
| Throw (e : Error).
Arguments Ok {A} a.
Arguments Throw {A} e.

(** Computations over a state [S] that may throw; the state survives
    a throw, as assignments made before a JavaScript exception do. *)
Definition M (S A : Type) : Type := S -> result A * S.

Definition ret {S A} (a : A) : M S A := fun s => (Ok a, s).
Definition throw {S A} (e : Error) : M S A := fun s => (Throw e, s).
Definition bind {S A B} (m : M S A) (k : A -> M S B) : M S B :=
  fun s => match m s with
           | (Ok a, s') => k a s'
           | (Throw e, s') => (Throw e, s')
           end.
(** [try { m } catch (error) { h error }] *)
Definition try_catch {S A} (m : M S A) (h : Error -> M S A) : M S A :=
  fun s => match m s with
           | (Ok a, s') => (Ok a, s')
           | (Throw e, s') => h e s'
           end.
Definition lift {S A} (r : result A) : M S A := fun s => (r, s).

Declare Scope js_scope.
Delimit Scope js_scope with js.
Notation "x <- m ;; k" := (bind m (fun x => k))
  (at level 61, m at next level, right associativity) : js_scope.

Definition is_ok {A} (r : result A) : bool :=
  match r with Ok _ => true | Throw _ => false end.

(* ================================================================= *)
(** ** The Node primitives *)

(** [zlib] and the AES-256-CBC transform with PKCS#7 padding, on a
    32-byte key and a 16-byte IV.  Decryption and decompression can
    fail. *)
Class NodeCrypto : Type := {
  gzipSync : Buffer -> Buffer;
  gunzipSync : Buffer -> option Buffer;
  aes_256_cbc_encrypt : Buffer -> Buffer -> Buffer -> Buffer;
  aes_256_cbc_decrypt : Buffer -> Buffer -> Buffer -> option Buffer
}.

(** What the two libraries document: decompression inverts
    compression, and decryption under the same key and IV inverts
    encryption. *)
Class NodeCryptoLaws (C : NodeCrypto) : Prop := {
  gunzip_gzip : forall data, gunzipSync (gzipSync data) = Some data;
  decrypt_encrypt : forall key iv data,
      length key = 32%nat -> length iv = 16%nat ->
      aes_256_cbc_decrypt key iv (aes_256_cbc_encrypt key iv data) = Some data
}.

(** [crypto.randomBytes]: the process draws from an entropy source. *)
Definition Entropy := nat -> byte.

Definition randomBytes (n : nat) (e : Entropy) : Buffer * Entropy :=
  (map e (seq 0 n), fun i => e (n + i)%nat).

(** [crypto.createCipheriv('aes-256-cbc', key, iv)] followed by
    [update] and [final]: Node refuses a key that is not 32 bytes and
    an IV that is not 16 bytes. *)
Definition cipheriv `{NodeCrypto} (key iv data : Buffer) : result Buffer :=
  if (length key =? 32)%nat && (length iv =? 16)%nat
  then Ok (aes_256_cbc_encrypt key iv data)
  else Throw CipherError.

Definition decipheriv `{NodeCrypto} (key iv data : Buffer) : result Buffer :=
  if (length key =? 32)%nat && (length iv =? 16)%nat
  then match aes_256_cbc_decrypt key iv data with
       | Some plain => Ok plain
       | None => Throw CipherError
       end
  else Throw CipherError.

Definition gunzip `{NodeCrypto} (data : Buffer) : result Buffer :=
  match gunzipSync data with
  | Some plain => Ok plain
  | None => Throw ZlibError
  end.

(* ================================================================= *)
(** ** Key provider *)

(** The module-level variables [ENCRYPTION_KEY] and [keyWarningShown],
    and the entropy of the process. *)
Record Process : Type := {
  ENCRYPTION_KEY : option Buffer;
  keyWarningShown : bool;
  entropy : Entropy
}.

Definition set_key (k : Buffer) (p : Process) : Process :=
  {| ENCRYPTION_KEY := Some k;
     keyWarningShown := keyWarningShown p;
     entropy := entropy p |}.

Definition set_warned (p : Process) : Process :=
  {| ENCRYPTION_KEY := ENCRYPTION_KEY p;
     keyWarningShown := true;
     entropy := entropy p |}.

Definition set_entropy (e : Entropy) (p : Process) : Process :=
  {| ENCRYPTION_KEY := ENCRYPTION_KEY p;
     keyWarningShown := keyWarningShown p;
     entropy := e |}.

Definition initial (e : Entropy) : Process :=
  {| ENCRYPTION_KEY := None; keyWarningShown := false; entropy := e |}.

Definition DEFAULT_KEY_HEX : jsstring :=
  js "0123456789abcdef0123456789abcdef0123456789abcdef0123456789abcdef".

(** [env] is [process.env.MESSAGE_ENCRYPTION_KEY]: unset or a string.
    A buffer is always truthy, an empty string is falsy. *)
Definition getEncryptionKey (env : option jsstring) : M Process Buffer :=
  fun p =>
    match ENCRYPTION_KEY p with
    | Some k => (Ok k, p)
    | None =>
        match env with
        | Some hex =>
            if truthy hex then
              let k := from_hex hex in
              let p' := set_key k p in
              if negb (length k =? 32)%nat
              then (Throw InvalidKeyLength, p')
              else (Ok k, p')
            else
              let p' := if negb (keyWarningShown p) then set_warned p else p in
              let k := from_hex DEFAULT_KEY_HEX in
              (Ok k, set_key k p')
        | None =>
            let p' := if negb (keyWarningShown p) then set_warned p else p in
            let k := from_hex DEFAULT_KEY_HEX in
            (Ok k, set_key k p')
        end
    end.

Definition IV_LENGTH : nat := 16.

(* ================================================================= *)
(** ** Codec *)

Definition draw_iv : M Process Buffer :=
  fun p => let (iv, e) := randomBytes IV_LENGTH (entropy p) in
           (Ok iv, set_entropy e p).

(** The [try] block of [encryptMessage]. *)
Definition encryptMessage_try `{NodeCrypto} (env : option jsstring)
    (text : jsstring) : M Process jsstring :=
  (key <- getEncryptionKey env ;;
   let compressed := gzipSync (from_utf8 text) in
   iv <- draw_iv ;;
   encrypted <- lift (cipheriv key iv compressed) ;;
   ret (toString_hex iv ++ COLON :: toString_hex encrypted))%js.

Definition encryptMessage `{NodeCrypto} (env : option jsstring)
    (text : jsstring) : M Process jsstring :=
  try_catch (encryptMessage_try env text) (fun _ => throw FailedToEncrypt).

(** The [try] block of [decryptMessage]. *)
Definition decryptMessage_try `{NodeCrypto} (env : option jsstring)
    (encryptedText : jsstring) : M Process jsstring :=
  (key <- getEncryptionKey env ;;
   match str_split COLON encryptedText with
   | [part0; part1] =>
       let iv := from_hex part0 in
       let encrypted := from_hex part1 in
       decrypted <- lift (decipheriv key iv encrypted) ;;
       decompressed <- lift (gunzip decrypted) ;;
       ret (toString_utf8 decompressed)
   | _ => throw InvalidMessageFormat
   end)%js.

Definition decryptMessage `{NodeCrypto} (env : option jsstring)
    (encryptedText : jsstring) : M Process jsstring :=
  try_catch (decryptMessage_try env encryptedText)
            (fun _ => throw FailedToDecrypt).

(* ================================================================= *)
(** ** Data model *)

(** Mongo object ids.  Route parameters are taken to be well-formed
    ids. *)
Definition ObjectId := nat.
Bind Scope nat_scope with ObjectId.

(** Modelled from the spec: the [User] schema ([models/User.js]) is
    not among the sources; the routes read [_id], [name], [email] and
    [role]. *)
Module User.
Record t : Type := {
  _id : ObjectId;
  name : jsstring;
  email : jsstring;
  role : jsstring
}.
End User.

Inductive MessageType : Type := direct | team.

Definition MessageType_eqb (a b : MessageType) : bool :=
  match a, b with
  | direct, direct | team, team => true
  | _, _ => false
  end.

(** Modelled from the spec: the [Message] schema ([models/Message.js])
    is not among the sources; these are the fields of the spec's data
    model, under the names the routes use ([userId] is the sender). *)
Record Message : Type := {
  _id : ObjectId;
  messageType : MessageType;
  userId : ObjectId;
  recipientId : ObjectId;
  text : jsstring;
  timestamp : Z;
  readBy : list ObjectId;
  edited : bool;
  editedAt : option Z
}.

Definition mem (u : ObjectId) (l : list ObjectId) : bool :=
  existsb (Nat.eqb u) l.

(* ================================================================= *)
(** ** Mongoose queries *)

Section Collection.
Context {D : Type}.

Definition find (q : D -> bool) (coll : list D) : list D := filter q coll.

Definition findOne (q : D -> bool) (coll : list D) : option D :=
  List.find q coll.

Definition countDocuments (q : D -> bool) (coll : list D) : nat :=
  length (filter q coll).

(** [deleteMany] returns the collection left and [deletedCount]. *)
Definition deleteMany (q : D -> bool) (coll : list D) : list D * nat :=
  (filter (fun d => negb (q d)) coll, length (filter q coll)).

(** [deleteOne] removes the first document that matches. *)
Fixpoint deleteOne (q : D -> bool) (coll : list D) : list D :=
  match coll with
  | [] => []
  | d :: rest => if q d then rest else d :: deleteOne q rest
  end.

(** [updateMany]: [upd] tells whether it changed the document;
    returns the collection and [modifiedCount]. *)
Fixpoint updateMany (q : D -> bool) (upd : D -> D * bool) (coll : list D)
  : list D * nat :=
  match coll with
  | [] => ([], 0%nat)
  | d :: rest =>
      let (rest', n) := updateMany q upd rest in
      if q d then
        let (d', changed) := upd d in
        (d' :: rest', if changed then S n else n)
      else (d :: rest', n)
  end.

(** [.sort(...)]: a stable insertion sort; [before a b] says that
    [a] may stand before [b]. *)
Fixpoint insert_sorted (before : D -> D -> bool) (d : D) (l : list D)
  : list D :=
  match l with
  | [] => [d]
  | x :: xs => if before d x then d :: l else x :: insert_sorted before d xs
  end.

Fixpoint sort (before : D -> D -> bool) (l : list D) : list D :=
  match l with
  | [] => []
  | x :: xs => insert_sorted before x (sort before xs)
  end.
End Collection.

Definition User_findById (users : list User.t) (id : ObjectId)
  : option User.t :=
  findOne (fun u => (User._id u =? id)%nat) users.

Definition Message_findById (db : list Message) (id : ObjectId)
  : option Message :=
  findOne (fun m => (_id m =? id)%nat) db.

(** [$addToSet: { readBy: u }] *)
Definition addToSet_readBy (u : ObjectId) (m : Message) : Message * bool :=
  if mem u (readBy m) then (m, false)
  else ({| _id := _id m; messageType := messageType m; userId := userId m;
           recipientId := recipientId m; text := text m;
           timestamp := timestamp m; readBy := readBy m ++ [u];
           edited := edited m; editedAt := editedAt m |}, true).

Definition newest_first (a b : Message) : bool := timestamp b <=? timestamp a.
Definition oldest_first (a b : Message) : bool := timestamp a <=? timestamp b.

(** The filter [{messageType: 'direct', userId: a, recipientId: b}]. *)
Definition direct_from_to (a b : ObjectId) (m : Message) : bool :=
  MessageType_eqb (messageType m) direct
  && (userId m =? a)%nat && (recipientId m =? b)%nat.

(** The filter of the thread and clear routes: direct, and sent by
    either user to the other. *)
Definition between (a b : ObjectId) (m : Message) : bool :=
  MessageType_eqb (messageType m) direct
  && (((userId m =? a)%nat && (recipientId m =? b)%nat)
      || ((userId m =? b)%nat && (recipientId m =? a)%nat)).

(** The filter of the conversations route. *)
Definition involves (a : ObjectId) (m : Message) : bool :=
  MessageType_eqb (messageType m) direct
  && ((userId m =? a)%nat || (recipientId m =? a)%nat).

(** The unread filter: direct, from [other] to [me], [readBy: {$ne: me}]. *)
Definition unread_from (other me : ObjectId) (m : Message) : bool :=
  direct_from_to other me m && negb (mem me (readBy m)).

(* ================================================================= *)
(** ** Responses *)

(** [res.status(s).json({success: true, ...payload})] or
    [res.status(s).json({success: false, error})]. *)
Inductive Response (A : Type) : Type :=
| Json (status : Z) (payload : A)
| JsonError (status : Z) (error : string).
Arguments Json {A} status payload.
Arguments JsonError {A} status error.

Definition succeeded {A} (r : Response A) : bool :=
  match r with Json _ _ => true | JsonError _ _ => false end.

(* ================================================================= *)
(** ** GET /conversations *)

Record Populated : Type := {
  doc : Message;
  userId_doc : option User.t;       (* null when the user is gone *)
  recipientId_doc : option User.t
}.

Definition populate (users : list User.t) (m : Message) : Populated :=
  {| doc := m;
     userId_doc := User_findById users (userId m);
     recipientId_doc := User_findById users (recipientId m) |}.

Record Conversation : Type := {
  user : User.t;
  lastMessage_text : jsstring;
  lastMessage_timestamp : Z;
  lastMessage_fromMe : bool;
  unreadCount : nat
}.

(** A JavaScript [Map] keyed by id strings: entries in insertion order. *)
Definition ConversationsMap := list (ObjectId * Conversation).

Definition Map_has (k : ObjectId) (m : ConversationsMap) : bool :=
  existsb (fun e => (fst e =? k)%nat) m.

(** The [for (const msg of messages)] loop. *)
Fixpoint conversations_loop (db : list Message) (me : ObjectId)
    (messages : list Populated) (conversationsMap : ConversationsMap)
  : result ConversationsMap :=
  match messages with
  | [] => Ok conversationsMap
  | msg :: rest =>
      match userId_doc msg with
      | None => Throw TypeError
      | Some sender =>
          let otherUser :=
            if (User._id sender =? me)%nat then recipientId_doc msg
            else Some sender in
          match otherUser with
          | None => Throw TypeError
          | Some other =>
              let otherUserId := User._id other in
              if negb (Map_has otherUserId conversationsMap) then
                let count :=
                  countDocuments (unread_from (User._id other) me) db in
                conversations_loop db me rest
                  (conversationsMap ++
                   [(otherUserId,
                     {| user := other;
                        lastMessage_text := text (doc msg);
                        lastMessage_timestamp := timestamp (doc msg);
                        lastMessage_fromMe := (User._id sender =? me)%nat;
                        unreadCount := count |})])
              else conversations_loop db me rest conversationsMap
          end
      end
  end.

Definition conversations_messages (users : list User.t) (db : list Message)
    (me : ObjectId) : list Populated :=
  map (populate users) (sort newest_first (find (involves me) db)).

Definition getConversations (users : list User.t) (db : list Message)
    (me : ObjectId) : Response (list Conversation) :=
  match conversations_loop db me (conversations_messages users db me) [] with
  | Ok conversationsMap => Json 200 (map snd conversationsMap)
  | Throw _ => JsonError 500 "Failed to load conversations"
  end.

(* ================================================================= *)
(** ** GET /:userId *)

Definition PLACEHOLDER : jsstring :=
  js "[Encrypted message - decryption failed]".

(** An element of the [messages] array of the response: the object
    literal of the [try] branch, or the one of the [catch] branch
    ([...msg.toObject()] with [text] overridden). *)
Inductive ThreadItem : Type :=
| Decrypted (id : ObjectId) (plain : jsstring) (sender : User.t)
    (at_ : Z) (readers : list ObjectId) (wasEdited : bool)
    (editedWhen : option Z) (isFromCurrentUser : bool)
| Undecrypted (obj : Message) (sender : User.t) (shown : jsstring)
    (isFromCurrentUser : bool).

Definition item_id (i : ThreadItem) : ObjectId :=
  match i with
  | Decrypted id _ _ _ _ _ _ _ => id
  | Undecrypted obj _ _ _ => _id obj
  end.

Definition item_text (i : ThreadItem) : jsstring :=
  match i with
  | Decrypted _ plain _ _ _ _ _ _ => plain
  | Undecrypted _ _ shown _ => shown
  end.

(** The callback of [messages.map]: [sender] is the populated
    [msg.userId]. *)
Definition decrypt_item `{NodeCrypto} (env : option jsstring)
    (currentUserId : ObjectId) (msg : Message) (sender : option User.t)
  : M Process ThreadItem :=
  try_catch
    (plain <- decryptMessage env (text msg) ;;
     match sender with
     | Some u =>
         ret (Decrypted (_id msg) plain u (timestamp msg) (readBy msg)
                (edited msg) (editedAt msg) (User._id u =? currentUserId)%nat)
     | None => throw TypeError
     end)%js
    (fun _ =>
       match sender with
       | Some u =>
           ret (Undecrypted msg u PLACEHOLDER (User._id u =? currentUserId)%nat)
       | None => throw TypeError
       end).

Fixpoint map_M {S A B} (f : A -> M S B) (l : list A) : M S (list B) :=
  match l with
  | [] => ret []
  | a :: rest => (b <- f a ;; bs <- map_M f rest ;; ret (b :: bs))%js
  end.

Definition thread_messages (db : list Message)
    (currentUserId otherUserId : ObjectId) : list Message :=
  sort oldest_first (find (between currentUserId otherUserId) db).

Record Thread : Type := {
  messages : list ThreadItem;
  otherUser : User.t
}.

(** The handler: the response, the process and the collection after
    the request. *)
Definition getMessages `{NodeCrypto} (env : option jsstring)
    (users : list User.t) (currentUserId otherUserId : ObjectId)
    (st : Process * list Message)
  : Response Thread * (Process * list Message) :=
  let (p, db) := st in
  match User_findById users otherUserId with
  | None => (JsonError 404 "User not found", (p, db))
  | Some other =>
      let found := thread_messages db currentUserId otherUserId in
      match map_M (fun msg =>
                     decrypt_item env currentUserId msg
                       (User_findById users (userId msg))) found p with
      | (Ok decryptedMessages, p') =>
          (Json 200 {| messages := decryptedMessages; otherUser := other |},
           (p', db))
      | (Throw _, p') => (JsonError 500 "Failed to load messages", (p', db))
      end
  end.

(* ================================================================= *)
(** ** POST /:userId *)

Record Sent : Type := {
  sent_doc : Message;                (* populated.toObject() *)
  sent_userId : option User.t;       (* its populated userId *)
  sent_text : jsstring;              (* text: text.trim() *)
  sent_isFromCurrentUser : bool
}.

(** The [text] of the parsed JSON body, an object
    ([const { text } = req.body]), by what the handler does with it. *)
Inductive BodyValue : Type :=
| Undefined                (* the body has no [text] *)
| Falsy                    (* null, false or 0 *)
| Str (t : jsstring)       (* a string *)
| Truthy.                  (* a number other than 0, true, an object or
                              an array: a value with no [trim] method *)

(** [!text || !text.trim()]: on a truthy value that is not a string
    [text.trim] is undefined and the call throws a TypeError. *)
Definition text_missing (body_text : BodyValue) : result bool :=
  match body_text with
  | Undefined | Falsy => Ok true
  | Str t => Ok (negb (truthy t) || negb (truthy (trim t)))
  | Truthy => Throw TypeError
  end.

(** [newId] is the [_id] Mongoose gives the new document and [now]
    the time of its creation.  Whatever is thrown inside the handler
    is answered 500. *)
Definition sendMessage `{NodeCrypto} (env : option jsstring)
    (users : list User.t) (currentUserId recipient : ObjectId)
    (body_text : BodyValue) (newId : ObjectId) (now : Z)
    (st : Process * list Message)
  : Response Sent * (Process * list Message) :=
  let (p, db) := st in
  match text_missing body_text with
  | Throw _ => (JsonError 500 "Failed to send message", (p, db))
  | Ok true => (JsonError 400 "Message text is required", (p, db))
  | Ok false =>
      match User_findById users recipient with
      | None => (JsonError 404 "Recipient not found", (p, db))
      | Some _ =>
          match body_text with
          | Str t =>
              match encryptMessage env (trim t) p with
              | (Throw _, p') =>
                  (JsonError 500 "Failed to send message", (p', db))
              | (Ok encryptedText, p') =>
                  let message :=
                    {| _id := newId; messageType := direct;
                       userId := currentUserId; recipientId := recipient;
                       text := encryptedText; timestamp := now;
                       readBy := [currentUserId];
                       edited := false; editedAt := None |} in
                  let db' := db ++ [message] in
                  match Message_findById db' (_id message) with
                  | None =>
                      (JsonError 500 "Failed to send message", (p', db'))
                  | Some populated =>
                      (Json 201
                         {| sent_doc := populated;
                            sent_userId :=
                              User_findById users (userId populated);
                            sent_text := trim t;
                            sent_isFromCurrentUser := true |},
                       (p', db'))
                  end
              end
          | _ =>                         (* [text.trim()] throws *)
              (JsonError 500 "Failed to send message", (p, db))
          end
      end
  end.

(* ================================================================= *)
(** ** PATCH /:userId/read *)

Definition markAsRead (currentUserId otherUserId : ObjectId)
    (db : list Message) : Response nat * list Message :=
  let (db', modifiedCount) :=
    updateMany (unread_from otherUserId currentUserId)
               (addToSet_readBy currentUserId) db in
  (Json 200 modifiedCount, db').

(* ================================================================= *)
(** ** DELETE /clear/:userId *)

(** The payload is [deletedCount]; the [message] of the response
    repeats it in words. *)
Definition clearChat (currentUserId otherUserId : ObjectId)
    (db : list Message) : Response nat * list Message :=
  let (db', deletedCount) :=
    deleteMany (between currentUserId otherUserId) db in
  (Json 200 deletedCount, db').

(* ================================================================= *)
(** ** DELETE /:messageId *)

(** The filter [{_id: messageId, messageType: 'direct', userId: me}]. *)
Definition own_direct (messageId me : ObjectId) (m : Message) : bool :=
  (_id m =? messageId)%nat
  && MessageType_eqb (messageType m) direct
  && (userId m =? me)%nat.

Definition NOT_FOUND_OR_NOT_AUTHORIZED : string :=
  "Message not found or you are not authorized to delete it".

Definition deleteMessage (me messageId : ObjectId) (db : list Message)
  : Response ObjectId * list Message :=
  match findOne (own_direct messageId me) db with
  | None => (JsonError 404 NOT_FOUND_OR_NOT_AUTHORIZED, db)
  | Some _ =>
      (Json 200 messageId, deleteOne (fun m => (_id m =? messageId)%nat) db)
  end.

(* ================================================================= *)
(** ** A stand-in for the Node primitives

    A toy instance of the interface, to run the routes on concrete
    inputs: "compression" prefixes the gzip magic bytes, the "cipher"
    adds the first key byte to every byte. *)

Definition toy_gzip (data : Buffer) : Buffer := x1f :: x8b :: data.

Definition toy_gunzip (data : Buffer) : option Buffer :=
  match data with
  | x1f :: x8b :: rest => Some rest
  | _ => None
  end.

Definition toy_shift (k : Z) (data : Buffer) : Buffer :=
  map (fun b => byte_of_Z (Z_of_byte b + k)) data.

Definition toy_key_byte (key : Buffer) : Z :=
  match key with k :: _ => Z_of_byte k | [] => 0 end.

Definition toy : NodeCrypto := {|
  gzipSync := toy_gzip;
  gunzipSync := toy_gunzip;
  aes_256_cbc_encrypt key iv data := toy_shift (toy_key_byte key) data;
  aes_256_cbc_decrypt key iv data :=
    Some (toy_shift (256 - toy_key_byte key) data)
|}.

(* ================================================================= *)
(** ** A small deployment

    Three users and a collection to run the routes on. *)

Definition alice : User.t :=
  {| User._id := 1%nat; User.name := js "Alice";
     User.email := js "alice@example.com"; User.role := js "manager" |}.
Definition bob : User.t :=
  {| User._id := 2%nat; User.name := js "Bob";
     User.email := js "bob@example.com"; User.role := js "member" |}.
Definition carol : User.t :=
  {| User._id := 3%nat; User.name := js "Carol";
     User.email := js "carol@example.com"; User.role := js "member" |}.

Definition sample_users : list User.t := [alice; bob; carol].

Definition zero_entropy : Entropy := fun _ => x00.
Definition sample_iv : Buffer := map zero_entropy (seq 0 16).
Definition DEFAULT_KEY : Buffer :=
  Eval vm_compute in from_hex DEFAULT_KEY_HEX.

Definition toy_wire (plain : string) : jsstring :=
  toString_hex sample_iv ++ COLON
    :: toString_hex (toy_shift (toy_key_byte DEFAULT_KEY)
                       (toy_gzip (from_utf8 (js plain)))).

Definition message (id : ObjectId) (kind : MessageType)
    (from to : ObjectId) (body : jsstring) (time : Z)
    (readers : list ObjectId) : Message :=
  {| _id := id; messageType := kind; userId := from; recipientId := to;
     text := body; timestamp := time; readBy := readers;
     edited := false; editedAt := None |}.

(** Alice wrote to Bob at 10 and at 20 (the second text is corrupt),
    a team message carries the same participants at 30, and Carol
    wrote to Bob at 15. *)
Definition sample_db : list Message :=
  [ message 10 direct 1 2 (toy_wire "first") 10 [1%nat];
    message 11 direct 1 2 (js "not a ciphertext") 20 [1%nat];
    message 12 team 1 2 (js "standup at ten") 30 [1%nat];
    message 13 direct 3 2 (toy_wire "hello bob") 15 [3%nat] ].

(* ================================================================= *)
(** ** Vocabulary of the properties *)

(** The digits [toString('hex')] writes. *)
Definition is_hex_digit (c : code_unit) : bool :=
  ((48 <=? c) && (c <=? 57)) || ((97 <=? c) && (c <=? 102)).

(** The key the configuration designates. *)
Definition configured_key (env : option jsstring) : Buffer :=
  match env with
  | Some hex => if truthy hex then from_hex hex else from_hex DEFAULT_KEY_HEX
  | None => from_hex DEFAULT_KEY_HEX
  end.

(** The key a process resolves to, when it is one the cipher takes:
    the memoized buffer if there is one, else the configured key. *)
Definition resolved_key (env : option jsstring) (p : Process) : option Buffer :=
  let k := match ENCRYPTION_KEY p with
           | Some k => k
           | None => configured_key env
           end in
  if (length k =? 32)%nat then Some k else None.

(** What [decryptMessage] answers, given the key the process resolves
    to. *)
Definition decode_with `{NodeCrypto} (key : option Buffer)
    (encryptedText : jsstring) : result jsstring :=
  match key with
  | None => Throw FailedToDecrypt
  | Some k =>
      match str_split COLON encryptedText with
      | [part0; part1] =>
          match decipheriv k (from_hex part0) (from_hex part1) with
          | Ok decrypted =>
              match gunzip decrypted with
              | Ok decompressed => Ok (toString_utf8 decompressed)
              | Throw _ => Throw FailedToDecrypt
              end
          | Throw _ => Throw FailedToDecrypt
          end
      | _ => Throw FailedToDecrypt
      end
  end.

(** The wire string [encryptMessage] builds under key [k] with the
    IV [iv]. *)
Definition wire_of `{NodeCrypto} (k iv : Buffer) (text : jsstring) : jsstring :=
  toString_hex iv ++ COLON
    :: toString_hex (aes_256_cbc_encrypt k iv (gzipSync (from_utf8 text))).

(** The IV the next [randomBytes(IV_LENGTH)] of the process returns. *)
Definition next_iv (p : Process) : Buffer :=
  fst (randomBytes IV_LENGTH (entropy p)).

(** An entropy source whose bytes are told apart: 0, 1, 2, ... *)
Definition counting_entropy : Entropy := fun i => byte_of_Z (Z.of_nat i).

(** The number of colons of a string. *)
Definition colons (s : jsstring) : nat := count_occ Z.eq_dec s COLON.

(** The hexadecimal digits: 0-9, a-f and A-F. *)
Definition is_hex_char (c : code_unit) : bool :=
  ((48 <=? c) && (c <=? 57)) || ((97 <=? c) && (c <=? 102))
  || ((65 <=? c) && (c <=? 70)).

(** The shape [<32-hex-char-iv>:<hex-ciphertext>]. *)
Definition wire_shape (s : jsstring) : bool :=
  match str_split COLON s with
  | [iv; encrypted] =>
      (length iv =? 32)%nat && forallb is_hex_char iv
      && forallb is_hex_char encrypted
  | _ => false
  end.

(** [_id] is the primary key of the collection. *)
Definition unique_ids (db : list Message) : Prop := NoDup (map _id db).

(** [m'] is [m] with possibly more readers. *)
Definition same_but_readBy (m m' : Message) : Prop :=
  _id m' = _id m /\ messageType m' = messageType m /\ userId m' = userId m
  /\ recipientId m' = recipientId m /\ text m' = text m
  /\ timestamp m' = timestamp m /\ edited m' = edited m
  /\ editedAt m' = editedAt m.

(** What mark-read by [me] for the counterpart [other] does to one
    document: a direct message from [other] to [me] gains [me] as a
    reader (set union), any other document is unchanged. *)
Definition marked (me other : ObjectId) (m m' : Message) : Prop :=
  if direct_from_to other me m
  then same_but_readBy m m'
       /\ (forall u, In u (readBy m') <-> In u (readBy m) \/ u = me)
       /\ (mem me (readBy m) = true -> m' = m)
  else m' = m.


(** The other party of a message the requester [me] sent or received. *)
Definition counterpart (me : ObjectId) (m : Message) : ObjectId :=
  if (userId m =? me)%nat then recipientId m else userId m.

(** The user documents the loop dereferences for [m] are in the user
    store: the sender, and the recipient when the requester is the
    sender. *)
Definition parties_present (users : list User.t) (me : ObjectId)
    (m : Message) : bool :=
  match User_findById users (userId m) with
  | None => false
  | Some _ =>
      if (userId m =? me)%nat
      then match User_findById users (recipientId m) with
           | Some _ => true
           | None => false
           end
      else true
  end.

(** The summary the loop builds from the message [m]. *)
Definition conversation_of (users : list User.t) (db : list Message)
    (me : ObjectId) (m : Message) : option Conversation :=
  match User_findById users (counterpart me m) with
  | Some other =>
      Some {| user := other;
              lastMessage_text := text m;
              lastMessage_timestamp := timestamp m;
              lastMessage_fromMe := (userId m =? me)%nat;
              unreadCount :=
                countDocuments (unread_from (counterpart me m) me) db |}
  | None => None
  end.

(** The messages that open a conversation not seen before. *)
Fixpoint firsts (me : ObjectId) (seen : list ObjectId) (l : list Message)
  : list Message :=
  match l with
  | [] => []
  | m :: rest =>
      if mem (counterpart me m) seen then firsts me seen rest
      else m :: firsts me (seen ++ [counterpart me m]) rest
  end.

(** The counterpart a summary is about. *)
Definition conv_id (c : Conversation) : ObjectId := User._id (user c).

(** Every user document the loop dereferences for a direct message
    of the requester is in the user store. *)
Definition every_party_present (users : list User.t) (db : list Message)
    (me : ObjectId) : Prop :=
  forall m, In m db -> involves me m = true ->
            parties_present users me m = true.

(** Three sends from Alice to Bob on an empty collection under the
    stand-in primitives. *)
Definition three_sends : list Message :=
  let s0 := (initial zero_entropy, []) in
  let s1 := snd (@sendMessage toy None sample_users 1 2 (Str (js "one"))
                   100 5 s0) in
  let s2 := snd (@sendMessage toy None sample_users 1 2 (Str (js "two"))
                   101 6 s1) in
  let s3 := snd (@sendMessage toy None sample_users 1 2 (Str (js "three"))
                   102 7 s2) in
  snd s3.

(** The user store after Bob's account has been deleted. *)
Definition users_without_bob : list User.t := [alice; carol].

(** What the thread shows for a stored text under the key the process
    resolves to. *)
Definition shown_text `{NodeCrypto} (key : option Buffer) (stored : jsstring)
  : jsstring :=
  match decode_with key stored with
  | Ok plain => plain
  | Throw _ => PLACEHOLDER
  end.

(* ================================================================= *)
(** ** GET /users *)

(** MongoDB orders strings by binary comparison of their UTF-8 form:
    byte by byte, a proper prefix first. *)
Fixpoint bytes_leb (a b : Buffer) : bool :=
  match a, b with
  | [], _ => true
  | _ :: _, [] => false
  | x :: a', y :: b' =>
      if Z_of_byte x <? Z_of_byte y then true
      else if Z_of_byte y <? Z_of_byte x then false
      else bytes_leb a' b'
  end.

(** [.sort({ name: 1 })] *)
Definition name_ascending (a b : User.t) : bool :=
  bytes_leb (from_utf8 (User.name a)) (from_utf8 (User.name b)).

(** The filter [{ _id: { $ne: req.user._id } }]. *)
Definition not_me (me : ObjectId) (u : User.t) : bool :=
  negb (User._id u =? me)%nat.

Definition getUsers (users : list User.t) (me : ObjectId)
  : Response (list User.t) :=
  Json 200 (sort name_ascending (find (not_me me) users)).

(* ================================================================= *)
(** ** The router

    The path patterns of the two [DELETE] routes.  Express compiles a
    pattern to a regular expression over the request path: a literal
    part is matched without regard to the case of its letters, a
    parameter captures one non-empty run of characters other than a
    slash, and one slash at the end of the path is allowed. *)

Module Router.

Definition SLASH : code_unit := 47.

Inductive Part : Type :=
| Literal (s : jsstring)
| Param.

Definition lower (c : code_unit) : code_unit :=
  if (65 <=? c) && (c <=? 90) then c + 32 else c.

Fixpoint same_text (a b : jsstring) : bool :=
  match a, b with
  | [], [] => true
  | x :: a', y :: b' => (lower x =? lower y) && same_text a' b'
  | _, _ => false
  end.

(** The segments of a request path, one slash at its end apart. *)
Definition segments (path : jsstring) : option (list jsstring) :=
  match path with
  | c :: rest =>
      if c =? SLASH then
        let parts := str_split SLASH rest in
        Some (if truthy (last parts []) then parts else removelast parts)
      else None
  | [] => None
  end.

(** The texts the parameters capture when the segments match the
    pattern, as they stand in the path: Express goes on to
    percent-decode them for [req.params]. *)
Fixpoint match_path (pat : list Part) (segs : list jsstring)
  : option (list jsstring) :=
  match pat, segs with
  | [], [] => Some []
  | Literal s :: pat', seg :: segs' =>
      if same_text s seg then match_path pat' segs' else None
  | Param :: pat', seg :: segs' =>
      if truthy seg
      then match match_path pat' segs' with
           | Some ps => Some (seg :: ps)
           | None => None
           end
      else None
  | _, _ => None
  end.

Definition captures (pat : list Part) (path : jsstring)
  : option (list jsstring) :=
  match segments path with
  | Some segs => match_path pat segs
  | None => None
  end.

(** ['/clear/:userId'] and ['/:messageId']. *)
Definition clear_pattern : list Part := [Literal (js "clear"); Param].

Definition delete_pattern : list Part := [Param].

End Router.

(* ================================================================= *)
(** ** The client: [services/api.js] *)

Module Api.

Definition DEFAULT_API_URL : jsstring := js "http://localhost:5000/api".

Definition SLASH : code_unit := 47.

(** [s.replace(/\/$/, '')] *)
Definition strip_trailing_slash (s : jsstring) : jsstring :=
  match rev s with
  | c :: r => if c =? SLASH then rev r else s
  | [] => s
  end.

(** [import.meta.env.VITE_API_URL?.replace(/\/$/, '') || '...'] *)
Definition API_URL (VITE_API_URL : option jsstring) : jsstring :=
  match VITE_API_URL with
  | Some v =>
      if truthy (strip_trailing_slash v) then strip_trailing_slash v
      else DEFAULT_API_URL
  | None => DEFAULT_API_URL
  end.

End Api.

(* ================================================================= *)
(** ** The client: [CreateProjectModal.jsx] *)

Module CreateProjectModal.

Definition COMMA : code_unit := 44.

(** [value.split(',').map(tag => tag.trim()).filter(tag => tag)] *)
Definition tags (value : jsstring) : list jsstring :=
  filter truthy (map trim (str_split COMMA value)).

End CreateProjectModal.

(* ================================================================= *)
(** ** The client: [StatusRequestModal.jsx] *)

Module StatusRequestModal.

Definition jsstring_eqb (a b : jsstring) : bool :=
  if list_eq_dec Z.eq_dec a b then true else false.

(** [['To Do', 'In Progress', 'Done'].filter(s => s !== task.status)] *)
Definition statusOptions (status : jsstring) : list jsstring :=
  filter (fun s => negb (jsstring_eqb s status))
         [js "To Do"; js "In Progress"; js "Done"].

(** The component state the handler reads and sets; [closing] says
    that the closing timer has been started. *)
Record State : Type := {
  requestedStatus : jsstring;
  reason : jsstring;
  isSubmitting : bool;
  error : jsstring;
  success : jsstring;
  closing : bool
}.

(** The argument of [onSubmit]. *)
Record Request : Type := {
  taskId : ObjectId;
  request_requestedStatus : jsstring;
  request_reason : jsstring
}.

(** What the handler reads of a rejected [onSubmit]: [err.response]
    with its [data], [err.request] and [err.message]. *)
Record ErrorData : Type := {
  data_error : option jsstring;
  data_message : option jsstring
}.

Record AxiosError : Type := {
  response : option (option ErrorData);
  request : bool;
  message : option jsstring
}.

(** [a || b] for a string that may be undefined. *)
Definition or_else (a : option jsstring) (b : jsstring) : jsstring :=
  match a with
  | Some s => if truthy s then s else b
  | None => b
  end.

Definition errorMessage (err : AxiosError) : jsstring :=
  let fallback := js "Failed to submit request" in
  match response err with
  | Some data =>
      or_else (match data with Some d => data_error d | None => None end)
        (or_else (match data with Some d => data_message d | None => None end)
           fallback)
  | None =>
      if request err
      then js "Server is not responding. Please check if the server is running."
      else or_else (message err) fallback
  end.

Definition set_error (e : jsstring) (st : State) : State :=
  {| requestedStatus := requestedStatus st; reason := reason st;
     isSubmitting := isSubmitting st; error := e; success := success st;
     closing := closing st |}.

(** [handleSubmit]: [onSubmit] answers [None] when it resolves and the
    error when it rejects.  Returns the state after the handler and
    the request handed to [onSubmit], if any. *)
Definition handleSubmit (task_id : ObjectId)
    (onSubmit : Request -> option AxiosError) (st : State)
  : State * option Request :=
  if negb (truthy (requestedStatus st)) || negb (truthy (trim (reason st)))
  then (set_error (js "Please select a status and provide a reason") st, None)
  else if (length (trim (reason st)) <? 10)%nat
  then (set_error (js "Reason must be at least 10 characters") st, None)
  else
    let req := {| taskId := task_id;
                  request_requestedStatus := requestedStatus st;
                  request_reason := trim (reason st) |} in
    match onSubmit req with
    | None =>
        ({| requestedStatus := requestedStatus st; reason := reason st;
            isSubmitting := false; error := [];
            success := js "Status change request submitted successfully!";
            closing := true |}, Some req)
    | Some err =>
        ({| requestedStatus := requestedStatus st; reason := reason st;
            isSubmitting := false; error := errorMessage err;
            success := []; closing := closing st |}, Some req)
    end.

(** The [disabled] attribute of the submit button. *)
Definition submit_disabled (st : State) : bool :=
  isSubmitting st || negb (truthy (requestedStatus st))
  || negb (truthy (trim (reason st))).

End StatusRequestModal.

(* ================================================================= *)
(** ** The client: the messages page *)

Module MessagesPage.

(** What [formatTimestamp] renders; [LocaleDate] stands for
    [date.toLocaleDateString()]. *)
Inductive Label : Type :=
| JustNow
| MinutesAgo (n : Z)
| HoursAgo (n : Z)
| DaysAgo (n : Z)
| LocaleDate (date : Z).

(** Times are milliseconds since the epoch; [now] is [new Date()]. *)
Definition formatTimestamp (now time : Z) : Label :=
  let diffMs := now - time in
  let diffMins := diffMs / 60000 in
  let diffHours := diffMs / 3600000 in
  let diffDays := diffMs / 86400000 in
  if diffMins <? 1 then JustNow
  else if diffMins <? 60 then MinutesAgo diffMins
  else if diffHours <? 24 then HoursAgo diffHours
  else if diffDays <? 7 then DaysAgo diffDays
  else LocaleDate time.

(** [handleSendMessage] goes on to call the API unless
    [!newMessage.trim() || !selectedUser || isSending]; the body it
    posts is [{ text: newMessage }]. *)
Definition handleSendMessage_posts (newMessage : jsstring)
    (selectedUser : option User.t) (isSending : bool)
  : option (ObjectId * BodyValue) :=
  match selectedUser with
  | Some u =>
      if negb (truthy (trim newMessage)) || isSending then None
      else Some (User._id u, Str newMessage)
  | None => None
  end.

End MessagesPage.

(* ================================================================= *)
(** ** More vocabulary *)

(** A hex digit in upper case. *)
(** The status request form as a resolved submission leaves it, with
    a reason since shortened to five characters. *)
Definition form_after_success : StatusRequestModal.State :=
  {| StatusRequestModal.requestedStatus := js "Done";
     StatusRequestModal.reason := js "short";
     StatusRequestModal.isSubmitting := false;
     StatusRequestModal.error := [];
     StatusRequestModal.success :=
       js "Status change request submitted successfully!";
     StatusRequestModal.closing := true |}.

Definition upper_hex (c : code_unit) : code_unit :=
  if (97 <=? c) && (c <=? 102) then c - 32 else c.

Definition item_sender (i : ThreadItem) : User.t :=
  match i with
  | Decrypted _ _ sender _ _ _ _ _ => sender
  | Undecrypted _ sender _ _ => sender
  end.

Definition item_isFromCurrentUser (i : ThreadItem) : bool :=
  match i with
  | Decrypted _ _ _ _ _ _ _ flag => flag
  | Undecrypted _ _ _ flag => flag
  end.

(** [older a b]: [a] is at most as recent as [b]. *)
Definition older (a b : Message) : Prop := timestamp a <= timestamp b.

(** Ascending names. *)
Definition name_le (a b : User.t) : Prop := name_ascending a b = true.

(** A direct message. *)
Definition is_direct (m : Message) : bool :=
  MessageType_eqb (messageType m) direct.

(** The document [POST /:userId] creates. *)
Definition new_message (newId me recipient : ObjectId) (wire : jsstring)
    (now : Z) : Message :=
  {| _id := newId; messageType := direct; userId := me;
     recipientId := recipient; text := wire; timestamp := now;
     readBy := [me]; edited := false; editedAt := None |}.

(** [ts.join(',')] *)
Fixpoint join (sep : code_unit) (ts : list jsstring) : jsstring :=
  match ts with
  | [] => []
  | [t] => t
  | t :: rest => t ++ sep :: join sep rest
  end.

(* ================================================================= *)
(** * Properties *)

(** ** Bytes and hexadecimal text *)

Lemma Z_of_byte_range (b : byte) : 0 <= Z_of_byte b < 256.
Proof.
  unfold Z_of_byte. pose proof (Byte.to_N_bounded b). lia.
Qed.

Lemma Z_of_byte_of_Z (z : Z) : 0 <= z < 256 -> Z_of_byte (byte_of_Z z) = z.
Proof.
  intros Hz. unfold byte_of_Z, Z_of_byte.
  rewrite Z.mod_small by lia.
  destruct (Byte.of_N (Z.to_N z)) as [b|] eqn:E.
  - apply Byte.to_of_N in E. rewrite E. lia.
  - apply Byte.of_N_None_iff in E. lia.
Qed.

Lemma byte_of_Z_of_byte (b : byte) : byte_of_Z (Z_of_byte b) = b.
Proof.
  unfold byte_of_Z, Z_of_byte.
  pose proof (Byte.to_N_bounded b) as Hb.
  rewrite Z.mod_small by lia.
  rewrite N2Z.id, Byte.of_to_N. reflexivity.
Qed.

Lemma hex_digit_is_hex (n : Z) : 0 <= n < 16 -> is_hex_digit (hex_digit n) = true.
Proof.
  intros Hn. unfold is_hex_digit, hex_digit.
  destruct (Z.ltb_spec n 10); apply orb_true_iff; [left|right];
    apply andb_true_iff; split; apply Z.leb_le; lia.
Qed.

Lemma unhex_hex_digit (n : Z) : 0 <= n < 16 -> unhex (hex_digit n) = Some n.
Proof.
  intros Hn. unfold unhex, hex_digit.
  destruct (Z.ltb_spec n 10).
  - rewrite (Z.mod_small (48 + n) 256) by lia.
    replace ((48 <=? 48 + n) && (48 + n <=? 57)) with true.
    + f_equal. lia.
    + symmetry. apply andb_true_iff. split; apply Z.leb_le; lia.
  - rewrite (Z.mod_small (87 + n) 256) by lia.
    replace ((48 <=? 87 + n) && (87 + n <=? 57)) with false.
    + replace ((97 <=? 87 + n) && (87 + n <=? 102)) with true.
      * f_equal. lia.
      * symmetry. apply andb_true_iff. split; apply Z.leb_le; lia.
    + symmetry. apply andb_false_iff. right. apply Z.leb_gt. lia.
Qed.

Lemma from_hex_hex_of_byte (b : byte) (s : jsstring) :
  from_hex (hex_of_byte b ++ s) = b :: from_hex s.
Proof.
  pose proof (Z_of_byte_range b) as Hb.
  unfold hex_of_byte. cbn [app from_hex].
  rewrite !unhex_hex_digit.
  - f_equal. rewrite <- (byte_of_Z_of_byte b) at 3. f_equal.
    pose proof (Z.div_mod (Z_of_byte b) 16). lia.
  - apply Z.mod_pos_bound. lia.
  - split.
    + apply Z.div_pos; lia.
    + apply Z.div_lt_upper_bound; lia.
Qed.

(** Hex decoding inverts hex encoding, whatever follows a character
    that is not a hex digit. *)
Lemma from_hex_toString_hex_app (buf : Buffer) (s : jsstring) :
  from_hex (toString_hex buf ++ s) = buf ++ from_hex s.
Proof.
  induction buf as [|b buf IH]; [reflexivity|].
  cbn [toString_hex flat_map]. fold (toString_hex buf).
  rewrite <- app_assoc, from_hex_hex_of_byte, IH. reflexivity.
Qed.

Lemma from_hex_toString_hex (buf : Buffer) : from_hex (toString_hex buf) = buf.
Proof.
  rewrite <- (app_nil_r (toString_hex buf)), from_hex_toString_hex_app.
  cbn. apply app_nil_r.
Qed.

Lemma toString_hex_is_hex (buf : Buffer) :
  forallb is_hex_digit (toString_hex buf) = true.
Proof.
  induction buf as [|b buf IH]; [reflexivity|].
  pose proof (Z_of_byte_range b) as Hb.
  cbn [toString_hex flat_map]. fold (toString_hex buf).
  rewrite forallb_app, IH, andb_true_r.
  unfold hex_of_byte. cbn [forallb].
  rewrite !hex_digit_is_hex; [reflexivity| |].
  - apply Z.mod_pos_bound. lia.
  - split; [apply Z.div_pos; lia | apply Z.div_lt_upper_bound; lia].
Qed.

Lemma toString_hex_length (buf : Buffer) :
  length (toString_hex buf) = (2 * length buf)%nat.
Proof.
  induction buf as [|b buf IH]; [reflexivity|].
  cbn [toString_hex flat_map]. fold (toString_hex buf).
  rewrite length_app, IH. cbn. lia.
Qed.

(** ** Splitting on the colon *)

Lemma str_split_nonempty (sep : code_unit) (s : jsstring) :
  str_split sep s <> [].
Proof.
  induction s as [|c s IH]; cbn; [discriminate|].
  destruct (c =? sep); [discriminate|].
  destruct (str_split sep s); [contradiction | discriminate].
Qed.

Lemma str_split_length (sep : code_unit) (s : jsstring) :
  length (str_split sep s) = S (count_occ Z.eq_dec s sep).
Proof.
  induction s as [|c s IH]; [reflexivity|].
  cbn [str_split count_occ].
  destruct (Z.eqb_spec c sep) as [->|Hne].
  - destruct (Z.eq_dec sep sep); [|contradiction]. cbn. now rewrite IH.
  - destruct (Z.eq_dec c sep); [contradiction|].
    destruct (str_split sep s) eqn:E; [now apply str_split_nonempty in E|].
    cbn in *. exact IH.
Qed.

Lemma str_split_no_sep (sep : code_unit) (s : jsstring) :
  forallb (fun c => negb (c =? sep)) s = true -> str_split sep s = [s].
Proof.
  induction s as [|c s IH]; [reflexivity|].
  cbn [forallb str_split]. intros H. apply andb_true_iff in H as [Hc Hs].
  apply negb_true_iff in Hc. rewrite Hc, (IH Hs). reflexivity.
Qed.

Lemma str_split_app (sep : code_unit) (a b : jsstring) :
  forallb (fun c => negb (c =? sep)) a = true ->
  str_split sep (a ++ sep :: b) = a :: str_split sep b.
Proof.
  induction a as [|c a IH]; cbn [forallb app str_split]; intros H.
  - now rewrite Z.eqb_refl.
  - apply andb_true_iff in H as [Hc Ha]. apply negb_true_iff in Hc.
    rewrite Hc, (IH Ha). reflexivity.
Qed.

Lemma hex_has_no_colon (s : jsstring) :
  forallb is_hex_digit s = true ->
  forallb (fun c => negb (c =? COLON)) s = true.
Proof.
  intros H. rewrite forallb_forall in *. intros c Hc. specialize (H c Hc).
  apply negb_true_iff, Z.eqb_neq. unfold is_hex_digit, COLON in *.
  apply orb_true_iff in H as [H|H]; apply andb_true_iff in H as [H1 H2];
    apply Z.leb_le in H1; apply Z.leb_le in H2; lia.
Qed.

(** A wire string [hex(iv) + ':' + hex(ciphertext)] splits into its
    two parts. *)
Lemma str_split_wire (iv encrypted : Buffer) :
  str_split COLON (toString_hex iv ++ COLON :: toString_hex encrypted)
  = [toString_hex iv; toString_hex encrypted].
Proof.
  rewrite str_split_app by (apply hex_has_no_colon, toString_hex_is_hex).
  rewrite str_split_no_sep by (apply hex_has_no_colon, toString_hex_is_hex).
  reflexivity.
Qed.

(** ** UTF-8 *)

Ltac zbool :=
  repeat match goal with
    | H : (_ && _) = true |- _ => apply andb_true_iff in H; destruct H
    | H : (_ && _) = false |- _ => apply andb_false_iff in H; destruct H
    | H : (_ <=? _) = true |- _ => apply Z.leb_le in H
    | H : (_ <=? _) = false |- _ => apply Z.leb_gt in H
    | H : (_ <? _) = true |- _ => apply Z.ltb_lt in H
    | H : (_ <? _) = false |- _ => apply Z.ltb_ge in H
    | H : (_ =? _) = true |- _ => apply Z.eqb_eq in H
    | H : (_ =? _) = false |- _ => apply Z.eqb_neq in H
    end.

(** Decide the test of the first conditional of the goal, dropping
    the branch the arithmetic context excludes. *)
Ltac decide_if :=
  match goal with
  | |- context [if ?c then _ else _] =>
      let E := fresh "E" in
      destruct c eqn:E; zbool; try (exfalso; lia)
  end.

Lemma in_range_true (lo hi : Z) (b : byte) :
  lo <= Z_of_byte b <= hi -> in_range lo hi b = true.
Proof.
  intros H. unfold in_range. apply andb_true_iff. split; apply Z.leb_le; lia.
Qed.

Lemma decode1 (b0 : byte) (r : Buffer) :
  Z_of_byte b0 < 128 ->
  toString_utf8 (b0 :: r) = Z_of_byte b0 :: toString_utf8 r.
Proof.
  intros H. cbn [toString_utf8]. cbv zeta. decide_if. reflexivity.
Qed.

Lemma decode2 (b0 b1 : byte) (r : Buffer) :
  194 <= Z_of_byte b0 <= 223 -> 128 <= Z_of_byte b1 <= 191 ->
  toString_utf8 (b0 :: b1 :: r)
  = ((Z_of_byte b0 - 192) * 64 + cont b1) :: toString_utf8 r.
Proof.
  intros H0 H1. cbn [toString_utf8]. cbv zeta.
  rewrite (in_range_true 128 191 b1) by lia.
  do 2 decide_if. reflexivity.
Qed.

Lemma decode3 (b0 b1 b2 : byte) (r : Buffer) :
  224 <= Z_of_byte b0 <= 239 ->
  second_lo (Z_of_byte b0) <= Z_of_byte b1 <= second_hi (Z_of_byte b0) ->
  128 <= Z_of_byte b2 <= 191 ->
  toString_utf8 (b0 :: b1 :: b2 :: r)
  = (((Z_of_byte b0 - 224) * 64 + cont b1) * 64 + cont b2)
    :: toString_utf8 r.
Proof.
  intros H0 H1 H2. cbn [toString_utf8]. cbv zeta.
  rewrite (in_range_true _ _ b1 H1).
  rewrite (in_range_true 128 191 b2) by lia.
  do 3 decide_if. reflexivity.
Qed.

Lemma decode4 (b0 b1 b2 b3 : byte) (r : Buffer) :
  240 <= Z_of_byte b0 <= 244 ->
  second_lo (Z_of_byte b0) <= Z_of_byte b1 <= second_hi (Z_of_byte b0) ->
  128 <= Z_of_byte b2 <= 191 ->
  128 <= Z_of_byte b3 <= 191 ->
  toString_utf8 (b0 :: b1 :: b2 :: b3 :: r)
  = utf16_of_code_point
      ((((Z_of_byte b0 - 240) * 64 + cont b1) * 64 + cont b2) * 64 + cont b3)
    ++ toString_utf8 r.
Proof.
  intros H0 H1 H2 H3. cbn [toString_utf8]. cbv zeta.
  rewrite (in_range_true _ _ b1 H1).
  rewrite (in_range_true 128 191 b2) by lia.
  rewrite (in_range_true 128 191 b3) by lia.
  do 4 decide_if. reflexivity.
Qed.

(** A scalar value below U+10000 decodes to itself. *)
Lemma decode_bmp (cp : Z) (r : Buffer) :
  0 <= cp < 65536 ->
  is_high_surrogate cp = false -> is_low_surrogate cp = false ->
  toString_utf8 (utf8_of_code_point cp ++ r) = cp :: toString_utf8 r.
Proof.
  intros Hcp Hh Hl. unfold is_high_surrogate, is_low_surrogate in *.
  unfold utf8_of_code_point.
  destruct (Z.ltb_spec cp 128) as [H1|H1];
    [|destruct (Z.ltb_spec cp 2048) as [H2|H2];
      [|destruct (Z.ltb_spec cp 65536) as [H3|H3]; [|lia]]];
    cbn [app].
  - rewrite decode1; rewrite Z_of_byte_of_Z by lia; [reflexivity | lia].
  - assert (0 <= cp mod 64 < 64) by (apply Z.mod_pos_bound; lia).
    assert (2 <= cp / 64 < 32) by (Z.div_mod_to_equations; lia).
    rewrite decode2; unfold cont; rewrite !Z_of_byte_of_Z by lia; try lia.
    f_equal. Z.div_mod_to_equations; lia.
  - assert (0 <= cp mod 64 < 64) by (apply Z.mod_pos_bound; lia).
    assert (0 <= (cp / 64) mod 64 < 64) by (apply Z.mod_pos_bound; lia).
    assert (0 <= cp / 4096 < 16) by (Z.div_mod_to_equations; lia).
    rewrite decode3; unfold cont; rewrite !Z_of_byte_of_Z by lia; try lia.
    + f_equal. Z.div_mod_to_equations; lia.
    + unfold second_lo, second_hi.
      repeat match goal with
             | |- context [?a =? ?b] => destruct (Z.eqb_spec a b)
             end; zbool; Z.div_mod_to_equations; lia.
Qed.

(** A surrogate pair survives the passage through four bytes. *)
Lemma decode_pair (hi lo : Z) (r : Buffer) :
  is_high_surrogate hi = true -> is_low_surrogate lo = true ->
  toString_utf8
    (utf8_of_code_point (65536 + (hi - 55296) * 1024 + (lo - 56320)) ++ r)
  = hi :: lo :: toString_utf8 r.
Proof.
  intros Hh Hl. unfold is_high_surrogate, is_low_surrogate in *. zbool.
  set (cp := 65536 + (hi - 55296) * 1024 + (lo - 56320)).
  assert (Hcp : 65536 <= cp < 1114112) by (unfold cp; lia).
  unfold utf8_of_code_point.
  do 3 decide_if. cbn [app].
  assert (0 <= cp mod 64 < 64) by (apply Z.mod_pos_bound; lia).
  assert (0 <= (cp / 64) mod 64 < 64) by (apply Z.mod_pos_bound; lia).
  assert (0 <= (cp / 4096) mod 64 < 64) by (apply Z.mod_pos_bound; lia).
  assert (0 <= cp / 262144 < 5) by (Z.div_mod_to_equations; lia).
  rewrite decode4; unfold cont; rewrite !Z_of_byte_of_Z by lia; try lia.
  - replace ((((240 + cp / 262144 - 240) * 64 + (128 + (cp / 4096) mod 64 - 128))
              * 64 + (128 + (cp / 64) mod 64 - 128)) * 64
             + (128 + cp mod 64 - 128)) with cp
      by (Z.div_mod_to_equations; lia).
    unfold utf16_of_code_point. decide_if. cbn [app].
    f_equal; [|f_equal]; unfold cp; Z.div_mod_to_equations; lia.
  - unfold second_lo, second_hi.
    repeat match goal with
           | |- context [?a =? ?b] => destruct (Z.eqb_spec a b)
           end; zbool; Z.div_mod_to_equations; lia.
Qed.

(** Two-step induction on strings, as [from_utf8] and [well_formed]
    recurse. *)
Lemma jsstring_ind2 (P : jsstring -> Prop) :
  P [] -> (forall c, P [c]) ->
  (forall c d s, P s -> P (d :: s) -> P (c :: d :: s)) ->
  forall s, P s.
Proof.
  intros H0 H1 H2 s.
  assert (H : P s /\ forall c, P (c :: s)).
  { induction s as [|d s [IHs IHc]]; [auto|]. split; [apply IHc|].
    intros c. apply H2; auto. }
  apply H.
Qed.

Lemma from_utf8_scalar (c : Z) (rest : jsstring) :
  is_high_surrogate c = false -> is_low_surrogate c = false ->
  from_utf8 (c :: rest) = utf8_of_code_point c ++ from_utf8 rest.
Proof.
  intros Hh Hl. cbn [from_utf8]. now rewrite Hh, Hl.
Qed.

Lemma from_utf8_pair (hi lo : Z) (rest : jsstring) :
  is_high_surrogate hi = true -> is_low_surrogate lo = true ->
  from_utf8 (hi :: lo :: rest)
  = utf8_of_code_point (65536 + (hi - 55296) * 1024 + (lo - 56320))
    ++ from_utf8 rest.
Proof.
  intros Hh Hl. cbn [from_utf8]. now rewrite Hh, Hl.
Qed.

(** Decoding the UTF-8 form of a well-formed string gives it back. *)
Lemma toString_from_utf8 (s : jsstring) :
  well_formed s = true -> toString_utf8 (from_utf8 s) = s.
Proof.
  induction s as [| c | c d s IHs IHd] using jsstring_ind2; intros Hwf.
  - reflexivity.
  - cbn [well_formed] in Hwf.
    destruct (is_high_surrogate c) eqn:Hh; [discriminate|].
    destruct (is_low_surrogate c) eqn:Hl; [discriminate|].
    rewrite andb_true_r in Hwf. zbool.
    rewrite from_utf8_scalar by assumption.
    rewrite decode_bmp by (auto; lia). reflexivity.
  - change (well_formed (c :: d :: s))
      with (if is_high_surrogate c
            then is_low_surrogate d && well_formed s
            else if is_low_surrogate c then false
                 else (0 <=? c) && (c <? 65536) && well_formed (d :: s))
      in Hwf.
    destruct (is_high_surrogate c) eqn:Hh.
    + apply andb_true_iff in Hwf as [Hd Hs].
      rewrite from_utf8_pair by assumption.
      rewrite decode_pair by assumption. now rewrite (IHs Hs).
    + destruct (is_low_surrogate c) eqn:Hl; [discriminate|].
      apply andb_true_iff in Hwf as [Hc Hds]. zbool.
      rewrite from_utf8_scalar by assumption.
      rewrite decode_bmp by (auto; lia). now rewrite (IHd Hds).
Qed.

(** ** Key resolution *)

Lemma default_key_length : length (from_hex DEFAULT_KEY_HEX) = 32%nat.
Proof. reflexivity. Qed.

Lemma resolved_key_length env p k :
  resolved_key env p = Some k -> length k = 32%nat.
Proof.
  unfold resolved_key.
  destruct (ENCRYPTION_KEY p) as [k0|];
    match goal with |- context [(length ?x =? 32)%nat] =>
      destruct (Nat.eqb_spec (length x) 32) end;
    intros [= <-]; assumption.
Qed.

Lemma getEncryptionKey_resolved env p k :
  resolved_key env p = Some k ->
  exists p', getEncryptionKey env p = (Ok k, p')
             /\ resolved_key env p' = Some k
             /\ entropy p' = entropy p.
Proof.
  unfold resolved_key, getEncryptionKey, configured_key.
  destruct (ENCRYPTION_KEY p) as [k0|] eqn:Ek.
  - destruct (length k0 =? 32)%nat eqn:El; intros [= <-].
    exists p. now rewrite Ek, El.
  - destruct env as [hex|]; [destruct (truthy hex)|].
    + destruct (length (from_hex hex) =? 32)%nat eqn:El; intros [= <-].
      cbn [negb]. eexists. split; [reflexivity|]. cbn. now rewrite El.
    + intros [= <-]. eexists. split; [reflexivity|].
      split; [reflexivity|]. now destruct (keyWarningShown p).
    + intros [= <-]. eexists. split; [reflexivity|].
      split; [reflexivity|]. now destruct (keyWarningShown p).
Qed.

Lemma getEncryptionKey_unresolved env p :
  resolved_key env p = None ->
  exists p', resolved_key env p' = None
             /\ entropy p' = entropy p
             /\ (getEncryptionKey env p = (Throw InvalidKeyLength, p')
                 \/ exists k, getEncryptionKey env p = (Ok k, p')
                              /\ (length k =? 32)%nat = false).
Proof.
  unfold resolved_key, getEncryptionKey, configured_key.
  destruct (ENCRYPTION_KEY p) as [k0|] eqn:Ek.
  - destruct (length k0 =? 32)%nat eqn:El; [discriminate|]. intros _.
    exists p. rewrite Ek, El. repeat split. right. now exists k0.
  - destruct env as [hex|]; [destruct (truthy hex)|]; try discriminate.
    destruct (length (from_hex hex) =? 32)%nat eqn:El; [discriminate|].
    intros _. cbn [negb]. eexists. split; [|split; [|left; reflexivity]].
    + cbn. now rewrite El.
    + reflexivity.
Qed.

(** ** The codec as a function of the resolved key *)

Lemma decryptMessage_decode_with `{NodeCrypto} env s p :
  fst (decryptMessage env s p) = decode_with (resolved_key env p) s
  /\ resolved_key env (snd (decryptMessage env s p)) = resolved_key env p
  /\ entropy (snd (decryptMessage env s p)) = entropy p.
Proof.
  unfold decryptMessage, try_catch, decryptMessage_try, bind.
  destruct (resolved_key env p) as [k|] eqn:Hk.
  - destruct (getEncryptionKey_resolved env p k Hk) as (p' & -> & Hk' & He).
    cbn [decode_with].
    destruct (str_split COLON s) as [|a [|b [|c l]]]; cbn; auto.
    unfold lift.
    destruct (decipheriv k (from_hex a) (from_hex b)); cbn; auto.
    destruct (gunzip a0); cbn; auto.
  - destruct (getEncryptionKey_unresolved env p Hk)
      as (p' & Hk' & He & [-> | (k & -> & Hl)]); cbn; auto.
    destruct (str_split COLON s) as [|a [|b [|c l]]]; cbn; auto.
    unfold lift, decipheriv. rewrite Hl. cbn. auto.
Qed.

Lemma next_iv_length p : length (next_iv p) = 16%nat.
Proof.
  unfold next_iv, randomBytes. cbn [fst]. now rewrite length_map, length_seq.
Qed.

Lemma encryptMessage_resolved `{NodeCrypto} env text p k :
  resolved_key env p = Some k ->
  exists p', encryptMessage env text p = (Ok (wire_of k (next_iv p) text), p')
             /\ resolved_key env p' = Some k.
Proof.
  intros Hk. unfold encryptMessage, try_catch, encryptMessage_try, bind.
  destruct (getEncryptionKey_resolved env p k Hk) as (p' & -> & Hk' & He).
  unfold draw_iv, lift, cipheriv, wire_of, next_iv.
  rewrite <- He.
  pose proof (next_iv_length p') as Hiv. unfold next_iv in Hiv.
  destruct (randomBytes IV_LENGTH (entropy p')) as [iv e'] eqn:Er.
  cbn [fst] in Hiv |- *.
  rewrite (resolved_key_length _ _ _ Hk), Hiv. cbn.
  eexists. split; [reflexivity|].
  unfold resolved_key in *. cbn. exact Hk'.
Qed.

Lemma encryptMessage_unresolved `{NodeCrypto} env text p :
  resolved_key env p = None ->
  exists p', encryptMessage env text p = (Throw FailedToEncrypt, p')
             /\ resolved_key env p' = None.
Proof.
  intros Hk. unfold encryptMessage, try_catch, encryptMessage_try, bind.
  destruct (getEncryptionKey_unresolved env p Hk)
    as (p' & Hk' & He & [-> | (k & -> & Hl)]).
  - exists p'. split; [reflexivity | assumption].
  - unfold draw_iv, lift, cipheriv.
    destruct (randomBytes IV_LENGTH (entropy p')) as [iv e'].
    rewrite Hl. cbn. eexists. split; [reflexivity|].
    unfold resolved_key in *. cbn. exact Hk'.
Qed.

Lemma decode_with_wire `{C : NodeCrypto} {L : NodeCryptoLaws C}
    (k iv : Buffer) (text : jsstring) :
  length k = 32%nat -> length iv = 16%nat ->
  decode_with (Some k) (wire_of k iv text)
  = Ok (toString_utf8 (from_utf8 text)).
Proof.
  intros Hk Hiv. unfold decode_with, wire_of.
  rewrite str_split_wire, !from_hex_toString_hex.
  unfold decipheriv. rewrite Hk, Hiv. cbn [Nat.eqb andb].
  rewrite decrypt_encrypt by assumption.
  unfold gunzip. now rewrite gunzip_gzip.
Qed.

(** ** The stand-in satisfies the contracts *)

Lemma Z_of_byte_of_Z_mod (z : Z) : Z_of_byte (byte_of_Z z) = z mod 256.
Proof.
  assert (H : 0 <= z mod 256 < 256) by (apply Z.mod_pos_bound; lia).
  unfold byte_of_Z.
  destruct (Byte.of_N (Z.to_N (z mod 256))) as [b|] eqn:E.
  - unfold Z_of_byte. apply Byte.to_of_N in E. rewrite E.
    now rewrite Z2N.id by lia.
  - apply Byte.of_N_None_iff in E. lia.
Qed.

Lemma byte_of_Z_mod (z : Z) : byte_of_Z (z mod 256) = byte_of_Z z.
Proof. unfold byte_of_Z. now rewrite Z.mod_mod by lia. Qed.

Lemma toy_shift_inverse (k : Z) (data : Buffer) :
  toy_shift (256 - k) (toy_shift k data) = data.
Proof.
  unfold toy_shift. rewrite map_map.
  rewrite <- (map_id data) at 2. apply map_ext. intros b.
  rewrite Z_of_byte_of_Z_mod.
  rewrite <- byte_of_Z_mod.
  replace (((Z_of_byte b + k) mod 256 + (256 - k)) mod 256)
    with (Z_of_byte b mod 256).
  - rewrite byte_of_Z_mod. apply byte_of_Z_of_byte.
  - pose proof (Z_of_byte_range b). Z.div_mod_to_equations. lia.
Qed.

Lemma toy_laws : NodeCryptoLaws toy.
Proof.
  split.
  - reflexivity.
  - intros key iv data _ _.
    cbv [aes_256_cbc_decrypt aes_256_cbc_encrypt toy].
    now rewrite toy_shift_inverse.
Qed.

(** ** Round trip *)

(** C1, as the code has it.  For every plaintext string [P] with no
    unpaired surrogate (a string with a UTF-8 form) and every process
    whose key resolves, [encryptMessage] returns a wire string and
    [decryptMessage] of that wire string returns [P]: compress, then
    encrypt under the resolved key, then decrypt, then decompress is
    the identity on such strings. *)
Theorem decryptMessage_encryptMessage `{C : NodeCrypto} {L : NodeCryptoLaws C}
    (env : option jsstring) (p : Process) (key : Buffer) (P : jsstring) :
  resolved_key env p = Some key ->
  well_formed P = true ->
  exists wire p1 p2,
    encryptMessage env P p = (Ok wire, p1)
    /\ decryptMessage env wire p1 = (Ok P, p2).
Proof.
  intros Hk Hwf.
  destruct (encryptMessage_resolved env P p key Hk) as (p1 & Henc & Hk1).
  exists (wire_of key (next_iv p) P), p1,
    (snd (decryptMessage env (wire_of key (next_iv p) P) p1)).
  split; [exact Henc|].
  destruct (decryptMessage_decode_with env (wire_of key (next_iv p) P) p1)
    as (Hd & _ & _).
  rewrite Hk1, decode_with_wire in Hd
    by (eauto using resolved_key_length, next_iv_length).
  rewrite toString_from_utf8 in Hd by assumption.
  destruct (decryptMessage env (wire_of key (next_iv p) P) p1) as [r p2].
  cbn in Hd |- *. now rewrite Hd.
Qed.

Lemma decryptMessage_encryptMessage_witness :
  exists wire p1 p2,
    @encryptMessage toy None (js "hello") (initial zero_entropy) = (Ok wire, p1)
    /\ @decryptMessage toy None wire p1 = (Ok (js "hello"), p2).
Proof.
  apply (@decryptMessage_encryptMessage toy toy_laws None
           (initial zero_entropy) (from_hex DEFAULT_KEY_HEX) (js "hello"));
    reflexivity.
Defined.

(** Outside that domain the passage through UTF-8 is lossy: an
    unpaired surrogate comes back as U+FFFD. *)
Remark unpaired_surrogate_is_replaced `{C : NodeCrypto} {L : NodeCryptoLaws C}
    (k iv : Buffer) :
  length k = 32%nat -> length iv = 16%nat ->
  decode_with (Some k) (wire_of k iv [55296]) = Ok [REPLACEMENT].
Proof.
  intros Hk Hiv. now rewrite decode_with_wire.
Qed.

(** C1 as stated fails at a plaintext with an unpaired surrogate: the
    one-unit string U+D800 is encoded, and what is decoded from the
    result is U+FFFD. *)
Example encryptMessage_loses_unpaired_surrogate :
  match @encryptMessage toy None [55296] (initial zero_entropy) with
  | (Ok wire, p1) =>
      fst (@decryptMessage toy None wire p1) = Ok [REPLACEMENT]
  | (Throw _, _) => False
  end
  /\ [REPLACEMENT] <> [55296]
  /\ well_formed [55296] = false.
Proof. repeat split. discriminate. Qed.

(** ** The key-length gate *)

Lemma getEncryptionKey_invalid_first (hex : jsstring) (p : Process) :
  ENCRYPTION_KEY p = None -> truthy hex = true ->
  (length (from_hex hex) =? 32)%nat = false ->
  getEncryptionKey (Some hex) p
  = (Throw InvalidKeyLength, set_key (from_hex hex) p).
Proof.
  intros Hp Ht Hl. unfold getEncryptionKey. now rewrite Hp, Ht, Hl.
Qed.

(** The assignment to [ENCRYPTION_KEY] precedes the length check, so
    the rejected buffer is what every later call returns. *)
Lemma getEncryptionKey_invalid_later (env : option jsstring) (k : Buffer)
    (p : Process) :
  getEncryptionKey env (set_key k p) = (Ok k, set_key k p).
Proof. reflexivity. Qed.

(** C5, at the failing input: the configured value [00] decodes to
    one byte.  The first call of [getEncryptionKey] throws; the second
    call returns the one-byte buffer as the key; [encryptMessage] then
    compresses and draws an IV before the cipher refuses the key. *)
Example getEncryptionKey_hands_out_invalid_key (C : NodeCrypto) :
  let env := Some (js "00") in
  let p0 := initial counting_entropy in
  let p1 := snd (getEncryptionKey env p0) in
  fst (getEncryptionKey env p0) = Throw InvalidKeyLength
  /\ getEncryptionKey env p1 = (Ok [x00], p1)
  /\ fst (encryptMessage env (js "hi") p1) = Throw FailedToEncrypt
  /\ entropy (snd (encryptMessage env (js "hi") p1)) 0%nat = x10
  /\ entropy p1 0%nat = x00.
Proof.
  cbv zeta. repeat split.
Qed.

(** ** Format rejection *)

Lemma str_split_two (s : jsstring) (a b : jsstring) :
  str_split COLON s = [a; b] -> colons s = 1%nat.
Proof.
  intros H. pose proof (str_split_length COLON s) as Hl.
  rewrite H in Hl. unfold colons. cbn in Hl. lia.
Qed.

(** Hex decoding stops at the first pair that is not hexadecimal:
    what follows the ciphertext changes nothing. *)
Lemma decode_with_trailing `{C : NodeCrypto} {L : NodeCryptoLaws C}
    (k iv : Buffer) (text junk : jsstring) :
  length k = 32%nat -> length iv = 16%nat ->
  forallb (fun c => negb (c =? COLON)) junk = true ->
  from_hex junk = [] ->
  decode_with (Some k) (wire_of k iv text ++ junk)
  = Ok (toString_utf8 (from_utf8 text)).
Proof.
  intros Hk Hiv Hj Hh. unfold decode_with, wire_of.
  rewrite <- app_assoc. cbn [app].
  rewrite str_split_app by (apply hex_has_no_colon, toString_hex_is_hex).
  rewrite str_split_no_sep.
  - rewrite from_hex_toString_hex, from_hex_toString_hex_app, Hh, app_nil_r.
    unfold decipheriv. rewrite Hk, Hiv. cbn [Nat.eqb andb].
    rewrite decrypt_encrypt by assumption.
    unfold gunzip. now rewrite gunzip_gzip.
  - rewrite forallb_app. apply andb_true_iff. split; [|exact Hj].
    apply hex_has_no_colon, toString_hex_is_hex.
Qed.

(** C6, as the code has it.  A string with no colon, or with two or
    more, is rejected: the [try] block throws the format error as soon
    as the key is at hand, and [decryptMessage] throws its one generic
    error.  A string with one colon whose first part does not decode
    to 16 bytes is rejected as well.  Other deviations from the wire
    shape are not rejected as such: a wire string followed by
    characters without a colon that do not begin with a hexadecimal
    pair is decoded as the wire string is. *)
Theorem decryptMessage_rejects `{C : NodeCrypto}
    (env : option jsstring) (p : Process) (s : jsstring) :
  (colons s <> 1%nat ->
     fst (decryptMessage env s p) = Throw FailedToDecrypt)
  /\ (colons s <> 1%nat ->
      forall k p', getEncryptionKey env p = (Ok k, p') ->
        decryptMessage_try env s p = (Throw InvalidMessageFormat, p'))
  /\ (forall part0 part1,
        str_split COLON s = [part0; part1] ->
        length (from_hex part0) <> 16%nat ->
        fst (decryptMessage env s p) = Throw FailedToDecrypt)
  /\ (NodeCryptoLaws C ->
      forall key iv text junk,
        resolved_key env p = Some key ->
        length iv = 16%nat ->
        forallb (fun c => negb (c =? COLON)) junk = true ->
        from_hex junk = [] ->
        s = wire_of key iv text ++ junk ->
        fst (decryptMessage env s p) = Ok (toString_utf8 (from_utf8 text))).
Proof.
  assert (Hs : colons s <> 1%nat -> forall a b, str_split COLON s <> [a; b]).
  { intros Hc a b E. apply Hc. eapply str_split_two; eassumption. }
  split; [|split; [|split]].
  - intros Hc. destruct (decryptMessage_decode_with env s p) as (-> & _).
    unfold decode_with. destruct (resolved_key env p); [|reflexivity].
    specialize (Hs Hc).
    destruct (str_split COLON s) as [|x [|y [|z l]]]; try reflexivity.
    now destruct (Hs x y).
  - intros Hc k p' Hk. unfold decryptMessage_try, bind. rewrite Hk.
    specialize (Hs Hc).
    destruct (str_split COLON s) as [|x [|y [|z l]]]; try reflexivity.
    now destruct (Hs x y).
  - intros part0 part1 Hsp Hiv.
    destruct (decryptMessage_decode_with env s p) as (-> & _).
    unfold decode_with. destruct (resolved_key env p); [|reflexivity].
    rewrite Hsp. unfold decipheriv.
    apply Nat.eqb_neq in Hiv. rewrite Hiv, andb_false_r. reflexivity.
  - intros L key iv plain junk Hk Hiv Hj Hh ->.
    destruct (decryptMessage_decode_with env (wire_of key iv plain ++ junk) p)
      as (-> & _).
    rewrite Hk. apply decode_with_trailing; try assumption.
    eapply resolved_key_length; eassumption.
Qed.

Lemma decryptMessage_rejects_witness :
  fst (@decryptMessage toy None (js "00ff") (initial zero_entropy))
  = Throw FailedToDecrypt
  /\ @decryptMessage_try toy None (js "a:b:c") (initial zero_entropy)
     = (Throw InvalidMessageFormat,
        snd (getEncryptionKey None (initial zero_entropy)))
  /\ fst (@decryptMessage toy None (js "00ff:1f8b") (initial zero_entropy))
     = Throw FailedToDecrypt
  /\ fst (@decryptMessage toy None
            (@wire_of toy DEFAULT_KEY sample_iv (js "hi") ++ js "zz")
            (initial zero_entropy))
     = Ok (toString_utf8 (from_utf8 (js "hi"))).
Proof.
  split; [|split; [|split]].
  - apply (@decryptMessage_rejects toy None (initial zero_entropy) (js "00ff")).
    cbv. discriminate.
  - destruct (@decryptMessage_rejects toy None (initial zero_entropy)
                (js "a:b:c")) as (_ & H & _).
    apply (H ltac:(cbv; discriminate) (from_hex DEFAULT_KEY_HEX)).
    reflexivity.
  - destruct (@decryptMessage_rejects toy None (initial zero_entropy)
                (js "00ff:1f8b")) as (_ & _ & H & _).
    apply (H (js "00ff") (js "1f8b")); [reflexivity | cbv; discriminate].
  - destruct (@decryptMessage_rejects toy None (initial zero_entropy)
                (@wire_of toy DEFAULT_KEY sample_iv (js "hi") ++ js "zz"))
      as (_ & _ & _ & H).
    apply (H toy_laws DEFAULT_KEY sample_iv (js "hi") (js "zz"));
      reflexivity.
Defined.

(** C6 as stated fails: a wire string followed by [zz] has not the
    wire shape, and decodes to the plaintext; so does the wire string
    whose first digit [0] is replaced by U+0130, a character whose low
    byte is the digit. *)
Example decryptMessage_accepts_trailing_garbage :
  wire_shape (@wire_of toy (from_hex DEFAULT_KEY_HEX) sample_iv (js "hi")
              ++ js "zz") = false
  /\ fst (@decryptMessage toy None
            (@wire_of toy (from_hex DEFAULT_KEY_HEX) sample_iv (js "hi")
             ++ js "zz")
            (initial zero_entropy))
     = Ok (js "hi")
  /\ hd 0 (@wire_of toy (from_hex DEFAULT_KEY_HEX) sample_iv (js "hi")) = 48
  /\ wire_shape
       (304 :: tl (@wire_of toy (from_hex DEFAULT_KEY_HEX) sample_iv (js "hi")))
     = false
  /\ fst (@decryptMessage toy None
            (304 :: tl (@wire_of toy (from_hex DEFAULT_KEY_HEX) sample_iv
                          (js "hi")))
            (initial zero_entropy))
     = Ok (js "hi").
Proof.
  repeat split; reflexivity.
Qed.

(** ** The message collection *)

Lemma unique_ids_inj (db : list Message) (x y : Message) :
  unique_ids db -> In x db -> In y db -> _id x = _id y -> x = y.
Proof.
  unfold unique_ids. induction db as [|d db IH]; cbn; [tauto|].
  intros Hnd Hx Hy E. inversion Hnd as [|? ? Hd Hnd']; subst.
  destruct Hx as [<-|Hx], Hy as [<-|Hy]; auto.
  - exfalso. apply Hd. rewrite E. now apply in_map.
  - exfalso. apply Hd. rewrite <- E. now apply in_map.
Qed.

Lemma filter_all {A} (f : A -> bool) (l : list A) :
  (forall x, In x l -> f x = true) -> filter f l = l.
Proof.
  induction l as [|a l IH]; cbn; intros H; [reflexivity|].
  rewrite (H a) by auto. f_equal. apply IH. auto.
Qed.

Lemma deleteOne_by_id (db : list Message) (messageId : ObjectId) :
  unique_ids db ->
  deleteOne (fun m => (_id m =? messageId)%nat) db
  = filter (fun m => negb (_id m =? messageId)%nat) db.
Proof.
  unfold unique_ids. induction db as [|d db IH]; cbn; intros Hnd; [reflexivity|].
  inversion Hnd as [|? ? Hd Hnd']; subst.
  destruct (Nat.eqb_spec (_id d) messageId) as [E|E]; cbn.
  - symmetry. apply filter_all. intros x Hx.
    apply negb_true_iff, Nat.eqb_neq. intros E'. apply Hd.
    rewrite E, <- E'. now apply in_map.
  - f_equal. now apply IH.
Qed.

(** Under unique ids, the delete-one route removes exactly the
    documents its [findOne] filter selects. *)
Lemma deleteMessage_collection (me messageId : ObjectId) (db : list Message) :
  unique_ids db ->
  snd (deleteMessage me messageId db)
  = filter (fun m => negb (own_direct messageId me m)) db.
Proof.
  intros Hu. unfold deleteMessage, findOne.
  destruct (List.find (own_direct messageId me) db) as [m|] eqn:Ef; cbn [snd].
  - apply find_some in Ef as [Hin Hm].
    rewrite deleteOne_by_id by assumption.
    apply filter_ext_in. intros x Hx. f_equal.
    destruct (Nat.eqb_spec (_id x) messageId) as [E|E].
    + assert (x = m) as ->; [|now rewrite Hm].
      apply (unique_ids_inj db); auto.
      unfold own_direct in Hm. apply andb_true_iff in Hm as [Hm _].
      apply andb_true_iff in Hm as [Hm _]. apply Nat.eqb_eq in Hm. congruence.
    + unfold own_direct. apply Nat.eqb_neq in E. now rewrite E.
  - symmetry. apply filter_all. intros x Hx.
    now rewrite (find_none _ _ Ef x Hx).
Qed.

Lemma deleteMessage_response (me messageId : ObjectId) (db : list Message) :
  fst (deleteMessage me messageId db)
  = if existsb (own_direct messageId me) db
    then Json 200 messageId
    else JsonError 404 NOT_FOUND_OR_NOT_AUTHORIZED.
Proof.
  unfold deleteMessage, findOne.
  destruct (List.find (own_direct messageId me) db) as [m|] eqn:Ef; cbn [fst].
  - apply find_some in Ef as [Hin Hm].
    replace (existsb (own_direct messageId me) db) with true; [reflexivity|].
    symmetry. apply existsb_exists. eauto.
  - replace (existsb (own_direct messageId me) db) with false; [reflexivity|].
    symmetry. apply not_true_is_false. intros H.
    apply existsb_exists in H as (x & Hx & Hm).
    now rewrite (find_none _ _ Ef x Hx) in Hm.
Qed.

Lemma own_direct_iff (messageId me : ObjectId) (m : Message) :
  own_direct messageId me m = true
  <-> _id m = messageId /\ messageType m = direct /\ userId m = me.
Proof.
  unfold own_direct. rewrite !andb_true_iff, !Nat.eqb_eq.
  destruct (messageType m); cbn; intuition congruence.
Qed.

(** ** Delete-one *)

(** C8.  On a collection with unique ids, [DELETE /:messageId]
    removes the message with the given id if and only if it is a
    direct message whose sender is the requester, and then answers
    with the deleted id; in every other case -- no message has the id,
    or the one that has it is not a direct message of the requester --
    the collection is untouched and the answer is one and the same 404
    response. *)
Theorem deleteMessage_only_sender (me messageId : ObjectId)
    (db : list Message) :
  unique_ids db ->
  (forall m, In m db -> _id m = messageId ->
     (~ In m (snd (deleteMessage me messageId db))
      <-> messageType m = direct /\ userId m = me))
  /\ ((exists m, In m db /\ _id m = messageId
                 /\ messageType m = direct /\ userId m = me) ->
      fst (deleteMessage me messageId db) = Json 200 messageId)
  /\ ((forall m, In m db -> _id m = messageId ->
         ~ (messageType m = direct /\ userId m = me)) ->
      deleteMessage me messageId db
      = (JsonError 404 NOT_FOUND_OR_NOT_AUTHORIZED, db)).
Proof.
  intros Hu. split; [|split].
  - intros m Hin Hid. rewrite deleteMessage_collection by assumption.
    rewrite filter_In, negb_true_iff. split.
    + intros Hn. destruct (own_direct messageId me m) eqn:E.
      * apply own_direct_iff in E. tauto.
      * tauto.
    + intros [Ht Hs] [_ Hf].
      assert (own_direct messageId me m = true) by now apply own_direct_iff.
      congruence.
  - intros (m & Hin & Hid & Ht & Hs). rewrite deleteMessage_response.
    replace (existsb (own_direct messageId me) db) with true; [reflexivity|].
    symmetry. apply existsb_exists. exists m. split; [assumption|].
    now apply own_direct_iff.
  - intros Hno. unfold deleteMessage, findOne.
    destruct (List.find (own_direct messageId me) db) as [m|] eqn:Ef;
      [|reflexivity].
    apply find_some in Ef as [Hin Hm]. apply own_direct_iff in Hm.
    destruct (Hno m Hin); tauto.
Qed.

Lemma sample_db_unique_ids : unique_ids sample_db.
Proof.
  unfold unique_ids. cbn.
  repeat (constructor; [cbn; intuition discriminate|]). constructor.
Qed.

(** The sender deletes her message; the recipient is turned away. *)
Lemma deleteMessage_only_sender_witness :
  fst (deleteMessage 1 10 sample_db) = Json 200 10%nat
  /\ deleteMessage 2 10 sample_db
     = (JsonError 404 NOT_FOUND_OR_NOT_AUTHORIZED, sample_db).
Proof.
  split.
  - destruct (deleteMessage_only_sender 1 10 sample_db sample_db_unique_ids)
      as (_ & H & _).
    apply H. eexists. split; [left; reflexivity|]. repeat split.
  - destruct (deleteMessage_only_sender 2 10 sample_db sample_db_unique_ids)
      as (_ & _ & H).
    apply H. intros m Hin Hid [_ Hs]. cbn in Hin.
    repeat (destruct Hin as [<-|Hin]; [cbn in *; discriminate|]).
    contradiction.
Defined.

(** ** Frame of the two deletes *)

Lemma between_iff (a b : ObjectId) (m : Message) :
  between a b m = true
  <-> messageType m = direct
      /\ ((userId m = a /\ recipientId m = b)
          \/ (userId m = b /\ recipientId m = a)).
Proof.
  unfold between.
  rewrite andb_true_iff, orb_true_iff, !andb_true_iff, !Nat.eqb_eq.
  destruct (messageType m); cbn; intuition congruence.
Qed.

Lemma own_direct_at_most_one (me messageId : ObjectId) (db : list Message) :
  unique_ids db ->
  (length db
   <= S (length (filter (fun m => negb (own_direct messageId me m)) db)))%nat.
Proof.
  unfold unique_ids. induction db as [|d db IH]; cbn; intros Hu; [lia|].
  inversion Hu as [|? ? Hnin Hu']; subst.
  destruct (own_direct messageId me d) eqn:E; cbn.
  - rewrite filter_all; [lia|]. intros x Hx. apply negb_true_iff.
    destruct (own_direct messageId me x) eqn:E'; [|reflexivity].
    exfalso. apply Hnin. apply own_direct_iff in E, E'.
    destruct E as [-> _], E' as [<- _]. now apply in_map.
  - specialize (IH Hu'). lia.
Qed.

(** C10.  On a collection with unique ids, delete-one leaves exactly
    the documents that are not the requester's direct message with
    the given id, so it removes at most one document; clear-between
    leaves exactly the documents that are not direct messages between
    the two users, in either direction, and reports how many it
    removed.  Hence every team message stays in the collection under
    both, whatever its id and participants, and so does every direct
    message of another pair of users. *)
Theorem deletes_frame (me other messageId : ObjectId) (db : list Message) :
  unique_ids db ->
  snd (deleteMessage me messageId db)
  = filter (fun m => negb (own_direct messageId me m)) db
  /\ (length db <= S (length (snd (deleteMessage me messageId db))))%nat
  /\ snd (clearChat me other db)
     = filter (fun m => negb (between me other m)) db
  /\ fst (clearChat me other db)
     = Json 200 (length (filter (between me other) db))
  /\ (forall m, In m db ->
        (In m (snd (clearChat me other db))
         <-> ~ (messageType m = direct
                /\ ((userId m = me /\ recipientId m = other)
                    \/ (userId m = other /\ recipientId m = me)))))
  /\ (forall m, In m db -> messageType m = team ->
        In m (snd (deleteMessage me messageId db))
        /\ In m (snd (clearChat me other db)))
  /\ (forall m, In m db -> _id m <> messageId ->
        In m (snd (deleteMessage me messageId db))).
Proof.
  intros Hu.
  assert (Hc : snd (clearChat me other db)
               = filter (fun m => negb (between me other m)) db) by reflexivity.
  pose proof (deleteMessage_collection me messageId db Hu) as Hd.
  split; [exact Hd|].
  split; [rewrite Hd; now apply own_direct_at_most_one|].
  split; [exact Hc|].
  split; [reflexivity|].
  split; [|split].
  - intros m Hin. rewrite Hc, filter_In, negb_true_iff, <- between_iff.
    destruct (between me other m); intuition congruence.
  - intros m Hin Ht. rewrite Hd, Hc, !filter_In. split; (split; [assumption|]).
    + unfold own_direct. rewrite Ht. cbn. now rewrite andb_false_r.
    + unfold between. now rewrite Ht.
  - intros m Hin Hid. rewrite Hd. apply filter_In. split; [assumption|].
    unfold own_direct. apply Nat.eqb_neq in Hid. now rewrite Hid.
Qed.

Lemma deletes_frame_witness :
  snd (deleteMessage 1 12 sample_db) = sample_db
  /\ map _id (snd (clearChat 1 2 sample_db)) = [12%nat; 13%nat].
Proof.
  destruct (deletes_frame 1 2 12 sample_db sample_db_unique_ids)
    as (Hd & _ & Hc & _).
  split; [rewrite Hd | rewrite Hc]; reflexivity.
Defined.

(** ** Mark-read *)

Lemma mem_In (u : ObjectId) (l : list ObjectId) : mem u l = true <-> In u l.
Proof.
  unfold mem. rewrite existsb_exists. split.
  - intros (x & Hx & E). apply Nat.eqb_eq in E. now subst.
  - intros H. exists u. split; [assumption | apply Nat.eqb_refl].
Qed.

Lemma addToSet_marked (me other : ObjectId) (m : Message) :
  unread_from other me m = true ->
  marked me other m (fst (addToSet_readBy me m))
  /\ snd (addToSet_readBy me m) = true
  /\ unread_from other me (fst (addToSet_readBy me m)) = false.
Proof.
  unfold unread_from, marked, addToSet_readBy. intros H.
  apply andb_true_iff in H as [Hd Hm]. apply negb_true_iff in Hm.
  rewrite Hd, Hm. cbn [fst snd]. repeat split; cbn; try congruence.
  - rewrite in_app_iff. cbn. intuition.
  - rewrite in_app_iff. cbn. intuition.
  - unfold direct_from_to in *. cbn. rewrite Hd. cbn.
    apply negb_false_iff, mem_In, in_app_iff. right. now left.
Qed.

Lemma marked_refl (me other : ObjectId) (m : Message) :
  unread_from other me m = false -> marked me other m m.
Proof.
  unfold unread_from, marked. intros H.
  destruct (direct_from_to other me m); [|reflexivity].
  cbn in H. apply negb_false_iff in H.
  repeat split; try tauto.
  intros [Hu | ->]; [assumption | now apply mem_In].
Qed.

Lemma updateMany_markAsRead (me other : ObjectId) (db : list Message) :
  let r := updateMany (unread_from other me) (addToSet_readBy me) db in
  Forall2 (marked me other) db (fst r)
  /\ snd r = countDocuments (unread_from other me) db
  /\ countDocuments (unread_from other me) (fst r) = 0%nat.
Proof.
  cbv zeta. unfold countDocuments.
  induction db as [|d db (IH1 & IH2 & IH3)]; cbn; [auto|].
  destruct (updateMany (unread_from other me) (addToSet_readBy me) db)
    as [db' n] eqn:Eu. cbn [fst snd] in *.
  destruct (unread_from other me d) eqn:Ed.
  - destruct (addToSet_marked me other d Ed) as (Hm & Hc & Hn).
    destruct (addToSet_readBy me d) as [d' changed]. cbn [fst snd] in *.
    subst changed. cbn. rewrite Hn. auto.
  - cbn. rewrite Ed. split; [|auto].
    constructor; [now apply marked_refl | assumption].
Qed.

Lemma updateMany_nothing_to_do {D} (q : D -> bool) (upd : D -> D * bool)
    (coll : list D) :
  countDocuments q coll = 0%nat -> updateMany q upd coll = (coll, 0%nat).
Proof.
  unfold countDocuments. induction coll as [|d coll IH]; cbn; [reflexivity|].
  destruct (q d); cbn; [discriminate|]. intros H. now rewrite (IH H).
Qed.

(** C9.  [PATCH /:userId/read] by the reader [me] for the counterpart
    [other]: document by document, every direct message from [other]
    to [me] ends with the readers it had together with [me] (and is
    untouched if [me] was among them), every other document is
    unchanged; the response counts the messages that lacked [me]; and
    a second mark-read from the resulting collection changes nothing
    and reports zero. *)
Theorem markAsRead_idempotent_union (me other : ObjectId) (db : list Message) :
  Forall2 (marked me other) db (snd (markAsRead me other db))
  /\ fst (markAsRead me other db)
     = Json 200 (countDocuments (unread_from other me) db)
  /\ markAsRead me other (snd (markAsRead me other db))
     = (Json 200 0%nat, snd (markAsRead me other db)).
Proof.
  destruct (updateMany_markAsRead me other db) as (H1 & H2 & H3).
  unfold markAsRead.
  destruct (updateMany (unread_from other me) (addToSet_readBy me) db)
    as [db' n]. cbn [fst snd] in *.
  split; [assumption|]. split; [now rewrite H2|].
  now rewrite (updateMany_nothing_to_do _ _ _ H3).
Qed.

(** ** Sorting *)

Lemma insert_sorted_In {D} (before : D -> D -> bool) (d : D) (l : list D) x :
  In x (insert_sorted before d l) <-> x = d \/ In x l.
Proof.
  induction l as [|y l IH]; cbn.
  - intuition.
  - destruct (before d y); cbn; [intuition | rewrite IH; intuition].
Qed.

Lemma sort_In {D} (before : D -> D -> bool) (l : list D) x :
  In x (sort before l) <-> In x l.
Proof.
  induction l as [|y l IH]; cbn; [tauto|].
  rewrite insert_sorted_In, IH. intuition.
Qed.



(** ** Conversation aggregation *)

Lemma User_findById_id (users : list User.t) (id : ObjectId) (u : User.t) :
  User_findById users id = Some u -> User._id u = id.
Proof.
  unfold User_findById, findOne. intros H.
  apply find_some in H as [_ H]. now apply Nat.eqb_eq in H.
Qed.

Lemma Map_has_mem (k : ObjectId) (acc : ConversationsMap) :
  Map_has k acc = mem k (map fst acc).
Proof.
  unfold Map_has, mem. induction acc as [|e acc IH]; cbn; [reflexivity|].
  now rewrite IH, Nat.eqb_sym.
Qed.

(** One turn of the loop. *)
Lemma conversations_loop_step users db me m (rest : list Populated) acc :
  conversations_loop db me (populate users m :: rest) acc
  = if parties_present users me m then
      match conversation_of users db me m with
      | Some c =>
          if Map_has (counterpart me m) acc
          then conversations_loop db me rest acc
          else conversations_loop db me rest (acc ++ [(counterpart me m, c)])
      | None => Throw TypeError
      end
    else Throw TypeError.
Proof.
  cbn [conversations_loop populate userId_doc recipientId_doc doc].
  unfold parties_present, conversation_of, counterpart.
  destruct (User_findById users (userId m)) as [s|] eqn:Es; [|reflexivity].
  rewrite (User_findById_id _ _ _ Es).
  destruct (userId m =? me)%nat eqn:Eme.
  - destruct (User_findById users (recipientId m)) as [r|] eqn:Er;
      [|reflexivity].
    rewrite (User_findById_id _ _ _ Er).
    now destruct (Map_has (recipientId m) acc).
  - rewrite Es, (User_findById_id _ _ _ Es).
    now destruct (Map_has (userId m) acc).
Qed.

Lemma parties_present_conversation users db me m :
  parties_present users me m = true ->
  exists c, conversation_of users db me m = Some c.
Proof.
  unfold parties_present, conversation_of, counterpart.
  destruct (User_findById users (userId m)) as [s|] eqn:Es; [|discriminate].
  destruct (userId m =? me)%nat.
  - destruct (User_findById users (recipientId m)); [eauto | discriminate].
  - rewrite Es. eauto.
Qed.

Lemma conversations_loop_ok users db me (l : list Message) :
  forallb (parties_present users me) l = true ->
  forall acc, exists entries,
    conversations_loop db me (map (populate users) l) acc = Ok (acc ++ entries)
    /\ Forall2 (fun m e => fst e = counterpart me m
                           /\ conversation_of users db me m = Some (snd e))
               (firsts me (map fst acc) l) entries.
Proof.
  induction l as [|m l IH]; cbn [forallb map firsts]; intros Hp acc.
  - exists []. rewrite app_nil_r. split; [reflexivity | constructor].
  - apply andb_true_iff in Hp as [Hm Hl].
    rewrite conversations_loop_step, Hm.
    destruct (parties_present_conversation users db me m Hm) as [c Hc].
    rewrite Hc, <- Map_has_mem.
    destruct (Map_has (counterpart me m) acc).
    + apply (IH Hl).
    + destruct (IH Hl (acc ++ [(counterpart me m, c)])) as (es & He & Hf).
      exists ((counterpart me m, c) :: es). split.
      * now rewrite He, <- app_assoc.
      * rewrite map_app in Hf. cbn in Hf. now constructor.
Qed.

Lemma conversations_loop_throws users db me (l : list Message) :
  forallb (parties_present users me) l = false ->
  forall acc,
    conversations_loop db me (map (populate users) l) acc = Throw TypeError.
Proof.
  induction l as [|m l IH]; cbn [forallb map]; intros Hp acc; [discriminate|].
  rewrite conversations_loop_step.
  destruct (parties_present users me m) eqn:Hm; [|reflexivity].
  cbn in Hp.
  destruct (parties_present_conversation users db me m Hm) as [c ->].
  destruct (Map_has (counterpart me m) acc); now apply IH.
Qed.







Lemma conversation_of_spec users db me m c :
  conversation_of users db me m = Some c ->
  conv_id c = counterpart me m
  /\ User_findById users (conv_id c) = Some (user c)
  /\ lastMessage_text c = text m
  /\ lastMessage_timestamp c = timestamp m
  /\ lastMessage_fromMe c = (userId m =? me)%nat
  /\ unreadCount c = countDocuments (unread_from (conv_id c) me) db.
Proof.
  unfold conversation_of, conv_id.
  destruct (User_findById users (counterpart me m)) as [o|] eqn:Eo;
    [|discriminate].
  intros [= <-]. cbn. rewrite (User_findById_id _ _ _ Eo). repeat split.
  exact Eo.
Qed.

Lemma Forall2_In_r {A B} (P : A -> B -> Prop) l l' y :
  Forall2 P l l' -> In y l' -> exists x, In x l /\ P x y.
Proof.
  induction 1 as [|a b l l' Hab Hf IH]; cbn; [tauto|].
  intros [<-|Hy]; [eauto|]. destruct (IH Hy) as (x & Hx & Hp). eauto.
Qed.

Lemma Forall2_map_eq {A B C} (f : A -> C) (g : B -> C) l l' :
  Forall2 (fun a b => g b = f a) l l' -> map g l' = map f l.
Proof.
  induction 1; cbn; congruence.
Qed.


Lemma conversations_messages_In users db me pm :
  In pm (conversations_messages users db me)
  <-> exists m, pm = populate users m /\ In m db /\ involves me m = true.
Proof.
  unfold conversations_messages, find. rewrite in_map_iff.
  split; intros (m & H1 & H2).
  - apply sort_In, filter_In in H2. eauto.
  - exists m. split; [auto|]. apply sort_In, filter_In. tauto.
Qed.

Lemma every_party_present_forallb users db me :
  every_party_present users db me ->
  forallb (parties_present users me)
    (sort newest_first (find (involves me) db)) = true.
Proof.
  intros H. apply forallb_forall. intros m Hm.
  apply sort_In, filter_In in Hm as [Hin Hi]. now apply H.
Qed.


Lemma parties_present_both users me m u r :
  User_findById users (userId m) = Some u ->
  User_findById users (recipientId m) = Some r ->
  parties_present users me m = true.
Proof.
  intros Hu Hr. unfold parties_present. rewrite Hu, Hr.
  now destruct (userId m =? me)%nat.
Qed.

Lemma sample_parties_present (me : ObjectId) :
  every_party_present sample_users sample_db me.
Proof.
  intros m Hin _. unfold sample_db in Hin. cbn [In] in Hin.
  repeat (destruct Hin as [<-|Hin];
          [eapply parties_present_both; reflexivity|]).
  contradiction.
Qed.


(** Messages at 10 and 20 between Alice and Bob: Alice's list shows
    Bob with the message of 20. *)
Example conversations_last_message :
  getConversations sample_users sample_db 1
  = Json 200
      [ {| user := bob;
           lastMessage_text := js "not a ciphertext";
           lastMessage_timestamp := 20;
           lastMessage_fromMe := true;
           unreadCount := 0 |} ].
Proof. reflexivity. Qed.

(** Bob's list: Alice (last message at 20) before Carol (15), two
    unread messages from Alice and one from Carol. *)
Example conversations_by_recency :
  match getConversations sample_users sample_db 2 with
  | Json _ convs =>
      map (fun c => (conv_id c, lastMessage_timestamp c, unreadCount c)) convs
      = [ (1%nat, 20, 2%nat); (3%nat, 15, 1%nat) ]
  | JsonError _ _ => False
  end.
Proof. reflexivity. Qed.

(** After Alice's three sends Bob sees three unread messages from
    her; after Bob marks them read he sees none. *)
Example unread_count_three_then_zero :
  map unreadCount
    match getConversations sample_users three_sends 2 with
    | Json _ convs => convs
    | JsonError _ _ => []
    end = [3%nat]
  /\ fst (markAsRead 2 1 three_sends) = Json 200 3%nat
  /\ map unreadCount
       match getConversations sample_users
               (snd (markAsRead 2 1 three_sends)) 2 with
       | Json _ convs => convs
       | JsonError _ _ => []
       end = [0%nat].
Proof. repeat split. Qed.

(** ** A counterpart missing from the user store *)

(** C7, as the code has it.  [GET /conversations] always answers:
    with the list of summaries when every user document the loop
    dereferences is in the user store, and with the 500 error
    response as soon as one direct message of the requester refers to
    a user who is no longer there (the [TypeError] of the [null]
    dereference is caught by the handler). *)
Theorem getConversations_missing_user (users : list User.t)
    (db : list Message) (me : ObjectId) :
  (every_party_present users db me ->
     succeeded (getConversations users db me) = true)
  /\ ((exists m, In m db /\ involves me m = true
                 /\ parties_present users me m = false) ->
      getConversations users db me
      = JsonError 500 "Failed to load conversations").
Proof.
  split.
  - intros Hp. unfold getConversations, conversations_messages.
    destruct (conversations_loop_ok users db me
                (sort newest_first (find (involves me) db))
                (every_party_present_forallb _ _ _ Hp) [])
      as (entries & -> & _).
    reflexivity.
  - intros (m & Hin & Hi & Hm).
    unfold getConversations, conversations_messages.
    rewrite conversations_loop_throws; [reflexivity|].
    apply not_true_is_false. intros Hall.
    rewrite forallb_forall in Hall.
    rewrite Hall in Hm; [discriminate|].
    apply sort_In, filter_In. auto.
Qed.

Lemma getConversations_missing_user_witness :
  succeeded (getConversations sample_users sample_db 1) = true
  /\ getConversations users_without_bob sample_db 1
     = JsonError 500 "Failed to load conversations".
Proof.
  split.
  - apply (getConversations_missing_user sample_users sample_db 1).
    apply sample_parties_present.
  - apply (getConversations_missing_user users_without_bob sample_db 1).
    eexists. split; [left; reflexivity|]. split; reflexivity.
Defined.

(** C7 as stated fails: Bob has been deleted from the user store,
    Alice's messages to him are still in the collection, and her
    conversation list is an error response. *)
Example getConversations_deleted_counterpart_fails :
  User_findById users_without_bob 2 = None
  /\ succeeded (getConversations users_without_bob sample_db 1) = false.
Proof. split; reflexivity. Qed.

(** ** Reading a thread *)

Lemma decrypt_item_present `{NodeCrypto} env me msg u p :
  exists item,
    fst (decrypt_item env me msg (Some u) p) = Ok item
    /\ item_id item = _id msg
    /\ item_text item = shown_text (resolved_key env p) (text msg)
    /\ resolved_key env (snd (decrypt_item env me msg (Some u) p))
       = resolved_key env p.
Proof.
  destruct (decryptMessage_decode_with env (text msg) p) as (Hd & Hk & _).
  unfold decrypt_item, try_catch, bind, shown_text. rewrite <- Hd.
  destruct (decryptMessage env (text msg) p) as [[plain|e] p'];
    cbn [fst snd] in *; eexists; repeat split; cbn; auto.
Qed.

Lemma map_M_decrypt_items `{NodeCrypto} env users me (found : list Message) :
  (forall msg, In msg found -> User_findById users (userId msg) <> None) ->
  forall p,
  exists items p',
    map_M (fun msg => decrypt_item env me msg
                        (User_findById users (userId msg))) found p
    = (Ok items, p')
    /\ Forall2 (fun msg item =>
                  item_id item = _id msg
                  /\ item_text item
                     = shown_text (resolved_key env p) (text msg))
               found items.
Proof.
  induction found as [|msg found IH]; intros Hs p.
  - exists [], p. split; [reflexivity | constructor].
  - cbn [map_M]. unfold bind at 1.
    destruct (User_findById users (userId msg)) as [u|] eqn:Eu;
      [|now destruct (Hs msg (or_introl eq_refl))].
    destruct (decrypt_item_present env me msg u p) as (item & Hi & Hid & Ht & Hk).
    destruct (decrypt_item env me msg (Some u) p) as [r p1].
    cbn [fst snd] in *. subst r.
    destruct (IH (fun m Hm => Hs m (or_intror Hm)) p1)
      as (items & p' & Hm & Hf).
    unfold bind. rewrite Hm. cbn.
    exists (item :: items), p'. split; [reflexivity|].
    constructor; [auto|]. rewrite <- Hk. exact Hf.
Qed.

(** C3.  For a requester and a counterpart who are both in the user
    store, [GET /:userId] succeeds whatever the stored texts are; its
    [messages] array has one element per message of the thread, in
    thread order, and the text of each element depends on that
    message alone: it is what [decryptMessage] returns for the stored
    text of that message, or the placeholder when [decryptMessage]
    throws for it; and the collection after the request is the
    collection before it. *)
Theorem getMessages_decodes_each `{C : NodeCrypto}
    (env : option jsstring) (users : list User.t)
    (currentUserId otherUserId : ObjectId) (requester other : User.t)
    (p : Process) (db : list Message) :
  User_findById users currentUserId = Some requester ->
  User_findById users otherUserId = Some other ->
  exists items p',
    getMessages env users currentUserId otherUserId (p, db)
    = (Json 200 {| messages := items; otherUser := other |}, (p', db))
    /\ Forall2 (fun msg item =>
                  item_id item = _id msg
                  /\ item_text item
                     = match fst (decryptMessage env (text msg) p) with
                       | Ok plain => plain
                       | Throw _ => PLACEHOLDER
                       end)
               (thread_messages db currentUserId otherUserId) items.
Proof.
  intros Hme Hother. unfold getMessages. rewrite Hother.
  destruct (map_M_decrypt_items env users currentUserId
              (thread_messages db currentUserId otherUserId)) with (p := p)
    as (items & p' & -> & Hf).
  - intros msg Hin. unfold thread_messages, find in Hin.
    apply sort_In, filter_In in Hin as [_ Hb].
    apply between_iff in Hb as [_ [[-> _]|[-> _]]]; congruence.
  - exists items, p'. split; [reflexivity|].
    eapply Forall2_impl; [|exact Hf].
    intros msg item [Hid Ht]. split; [assumption|].
    destruct (decryptMessage_decode_with env (text msg) p) as (-> & _).
    exact Ht.
Qed.

Lemma getMessages_decodes_each_witness :
  exists items p',
    @getMessages toy None sample_users 2 1 (initial zero_entropy, sample_db)
    = (Json 200 {| messages := items; otherUser := alice |}, (p', sample_db))
    /\ Forall2 (fun msg item =>
                  item_id item = _id msg
                  /\ item_text item
                     = match fst (@decryptMessage toy None (text msg)
                                    (initial zero_entropy)) with
                       | Ok plain => plain
                       | Throw _ => PLACEHOLDER
                       end)
               (thread_messages sample_db 2 1) items.
Proof.
  apply (@getMessages_decodes_each toy None sample_users 2 1 bob alice);
    reflexivity.
Defined.

(** Bob reads his thread with Alice: the first message in clear, the
    corrupt one as the placeholder. *)
Example thread_with_one_corrupt_message :
  match fst (@getMessages toy None sample_users 2 1
               (initial zero_entropy, sample_db)) with
  | Json status thread =>
      status = 200
      /\ map item_text (messages thread) = [js "first"; PLACEHOLDER]
  | JsonError _ _ => False
  end.
Proof. split; reflexivity. Qed.

(** ** Sending *)

Lemma is_hex_digit_char (s : jsstring) :
  forallb is_hex_digit s = true -> forallb is_hex_char s = true.
Proof.
  intros H. rewrite forallb_forall in *. intros c Hc. specialize (H c Hc).
  unfold is_hex_digit in H. unfold is_hex_char. now rewrite H.
Qed.

(** What the codec writes has the wire shape. *)
Lemma wire_of_shape `{NodeCrypto} (k iv : Buffer) (plain : jsstring) :
  length iv = 16%nat -> wire_shape (wire_of k iv plain) = true.
Proof.
  intros Hiv. unfold wire_shape, wire_of. rewrite str_split_wire.
  rewrite toString_hex_length, Hiv.
  rewrite !is_hex_digit_char by apply toString_hex_is_hex. reflexivity.
Qed.

Lemma Message_findById_last (db : list Message) (m : Message) :
  exists found, Message_findById (db ++ [m]) (_id m) = Some found
                /\ (~ In (_id m) (map _id db) -> found = m).
Proof.
  unfold Message_findById, findOne.
  induction db as [|d db (found & Hf & Hfresh)]; cbn.
  - rewrite Nat.eqb_refl. eauto.
  - destruct (Nat.eqb_spec (_id d) (_id m)) as [E|E].
    + exists d. split; [reflexivity|]. intros Hn. destruct Hn. now left.
    + exists found. split; [assumption|]. intros Hn. apply Hfresh. tauto.
Qed.




(* ================================================================= *)
(** * Further properties of the routes *)

(** ** The key provider *)

(** X1.  A first call of [getEncryptionKey] that returns a key returns
    the configured key, of 32 bytes, and memoizes it: every later
    call, whatever the environment has become, returns the same key
    and leaves the process as it is. *)
Theorem getEncryptionKey_checks_then_memoizes (env : option jsstring)
    (p p' : Process) (k : Buffer) :
  ENCRYPTION_KEY p = None ->
  getEncryptionKey env p = (Ok k, p') ->
  length k = 32%nat
  /\ k = configured_key env
  /\ ENCRYPTION_KEY p' = Some k
  /\ forall env', getEncryptionKey env' p' = (Ok k, p').
Proof.
  intros Hp. unfold getEncryptionKey, configured_key. rewrite Hp.
  destruct env as [hex|]; [destruct (truthy hex)|].
  - destruct (Nat.eqb_spec (length (from_hex hex)) 32) as [E|E]; cbn [negb];
      intros [= <- <-]. repeat split; auto.
  - intros [= <- <-]. repeat split.
  - intros [= <- <-]. repeat split.
Qed.

Lemma getEncryptionKey_checks_then_memoizes_witness :
  length DEFAULT_KEY = 32%nat
  /\ DEFAULT_KEY = configured_key None
  /\ ENCRYPTION_KEY (snd (getEncryptionKey None (initial zero_entropy)))
     = Some DEFAULT_KEY
  /\ forall env',
       getEncryptionKey env' (snd (getEncryptionKey None (initial zero_entropy)))
       = (Ok DEFAULT_KEY, snd (getEncryptionKey None (initial zero_entropy))).
Proof.
  apply (getEncryptionKey_checks_then_memoizes None (initial zero_entropy));
    reflexivity.
Defined.

(** X2.  With no key configured -- the variable unset or empty -- a
    process without a memoized key resolves to the fixed default key
    [0123456789abcdef] four times over, raises the warning flag, and
    draws no entropy. *)
Theorem getEncryptionKey_falls_back_to_default (env : option jsstring)
    (p : Process) :
  ENCRYPTION_KEY p = None ->
  env = None \/ env = Some [] ->
  fst (getEncryptionKey env p) = Ok DEFAULT_KEY
  /\ keyWarningShown (snd (getEncryptionKey env p)) = true
  /\ resolved_key env (snd (getEncryptionKey env p)) = Some DEFAULT_KEY
  /\ entropy (snd (getEncryptionKey env p)) = entropy p.
Proof.
  intros Hp [-> | ->]; unfold getEncryptionKey, resolved_key; rewrite Hp;
    cbn [truthy fst snd];
    destruct (keyWarningShown p) eqn:Ew; cbn [negb];
    repeat split; try reflexivity; exact Ew.
Qed.

Lemma getEncryptionKey_falls_back_to_default_witness :
  fst (getEncryptionKey (Some []) (initial zero_entropy)) = Ok DEFAULT_KEY
  /\ keyWarningShown (snd (getEncryptionKey (Some []) (initial zero_entropy)))
     = true
  /\ resolved_key (Some []) (snd (getEncryptionKey (Some [])
                                    (initial zero_entropy)))
     = Some DEFAULT_KEY
  /\ entropy (snd (getEncryptionKey (Some []) (initial zero_entropy)))
     = entropy (initial zero_entropy).
Proof.
  apply (getEncryptionKey_falls_back_to_default (Some [])
           (initial zero_entropy)); [reflexivity | right; reflexivity].
Defined.

(** ** The codec *)

Lemma encryptMessage_resolved_entropy `{NodeCrypto} env text p k :
  resolved_key env p = Some k ->
  exists p', encryptMessage env text p = (Ok (wire_of k (next_iv p) text), p')
             /\ resolved_key env p' = Some k
             /\ forall i, entropy p' i = entropy p (16 + i)%nat.
Proof.
  intros Hk. unfold encryptMessage, try_catch, encryptMessage_try, bind.
  destruct (getEncryptionKey_resolved env p k Hk) as (p' & -> & Hk' & He).
  unfold draw_iv, lift, cipheriv, wire_of, next_iv.
  rewrite <- He.
  pose proof (next_iv_length p') as Hiv. unfold next_iv in Hiv.
  unfold randomBytes in *. cbn [fst] in Hiv |- *.
  rewrite (resolved_key_length _ _ _ Hk), Hiv. cbn.
  eexists. split; [reflexivity|]. split; [|reflexivity].
  unfold resolved_key in *. cbn. exact Hk'.
Qed.

Lemma wire_of_colons `{NodeCrypto} (k iv : Buffer) (plain : jsstring) :
  colons (wire_of k iv plain) = 1%nat.
Proof.
  eapply str_split_two. unfold wire_of. apply str_split_wire.
Qed.

(** X3.  Whenever [encryptMessage] returns a string, the string has
    the wire shape, holds exactly one colon, starts with the hex form
    of the next 16 bytes of the entropy source, and the process has
    moved 16 bytes on in that source: successive messages draw
    successive, disjoint IVs. *)
Theorem encryptMessage_wire_format `{C : NodeCrypto}
    (env : option jsstring) (plain wire : jsstring) (p p' : Process) :
  encryptMessage env plain p = (Ok wire, p') ->
  wire_shape wire = true
  /\ colons wire = 1%nat
  /\ firstn 32 wire = toString_hex (next_iv p)
  /\ forall i, entropy p' i = entropy p (16 + i)%nat.
Proof.
  intros He. destruct (resolved_key env p) as [k|] eqn:Hk.
  - destruct (encryptMessage_resolved_entropy env plain p k Hk)
      as (p1 & He' & _ & Hent).
    rewrite He' in He. injection He as <- <-.
    split; [apply wire_of_shape, next_iv_length|].
    split; [apply wire_of_colons|]. split; [|exact Hent].
    reflexivity.
  - destruct (encryptMessage_unresolved env plain p Hk) as (p1 & He' & _).
    rewrite He' in He. discriminate.
Qed.

Lemma encryptMessage_wire_format_witness :
  wire_shape (toy_wire "first") = true
  /\ colons (toy_wire "first") = 1%nat
  /\ firstn 32 (toy_wire "first")
     = toString_hex (next_iv (initial zero_entropy))
  /\ forall i,
       entropy (snd (@encryptMessage toy None (js "first")
                       (initial zero_entropy))) i
       = entropy (initial zero_entropy) (16 + i)%nat.
Proof.
  apply (@encryptMessage_wire_format toy None (js "first") (toy_wire "first")
           (initial zero_entropy)
           (snd (@encryptMessage toy None (js "first")
                   (initial zero_entropy)))).
  reflexivity.
Defined.

(** X4.  [decryptMessage] reads the process through the resolved key
    alone: two processes that resolve to the same key give the same
    answer for every string; and it leaves the resolved key and the
    entropy source as they are. *)
Theorem decryptMessage_reads_the_key_only `{C : NodeCrypto}
    (env : option jsstring) (s : jsstring) (p1 p2 : Process) :
  resolved_key env p1 = resolved_key env p2 ->
  fst (decryptMessage env s p1) = fst (decryptMessage env s p2)
  /\ resolved_key env (snd (decryptMessage env s p1)) = resolved_key env p1
  /\ entropy (snd (decryptMessage env s p1)) = entropy p1.
Proof.
  intros Hk.
  destruct (decryptMessage_decode_with env s p1) as (-> & -> & ->).
  destruct (decryptMessage_decode_with env s p2) as (-> & _).
  now rewrite Hk.
Qed.

Lemma decryptMessage_reads_the_key_only_witness :
  fst (@decryptMessage toy None (toy_wire "first") (initial zero_entropy))
  = fst (@decryptMessage toy None (toy_wire "first")
           (set_key DEFAULT_KEY (initial counting_entropy)))
  /\ resolved_key None
       (snd (@decryptMessage toy None (toy_wire "first")
               (initial zero_entropy)))
     = resolved_key None (initial zero_entropy)
  /\ entropy (snd (@decryptMessage toy None (toy_wire "first")
                     (initial zero_entropy)))
     = entropy (initial zero_entropy).
Proof.
  apply (@decryptMessage_reads_the_key_only toy None (toy_wire "first")
           (initial zero_entropy)
           (set_key DEFAULT_KEY (initial counting_entropy))).
  reflexivity.
Defined.

Lemma unhex_upper_hex (c : code_unit) : unhex (upper_hex c) = unhex c.
Proof.
  unfold upper_hex.
  destruct ((97 <=? c) && (c <=? 102)) eqn:E; [|reflexivity].
  zbool. unfold unhex.
  rewrite (Z.mod_small (c - 32) 256), (Z.mod_small c 256) by lia.
  repeat match goal with
         | |- context [?a <=? ?b] => destruct (Z.leb_spec a b)
         end; cbn [andb]; try lia.
  f_equal. lia.
Qed.

Lemma from_hex_upper_hex (s : jsstring) :
  from_hex (map upper_hex s) = from_hex s.
Proof.
  induction s as [| a | a b s IHs _] using jsstring_ind2; try reflexivity.
  cbn [map from_hex]. rewrite !unhex_upper_hex, IHs. reflexivity.
Qed.

Lemma upper_hex_colon (c : code_unit) :
  (upper_hex c =? COLON) = (c =? COLON).
Proof.
  unfold upper_hex, COLON.
  destruct ((97 <=? c) && (c <=? 102)) eqn:E; [|reflexivity].
  zbool. destruct (Z.eqb_spec (c - 32) 58), (Z.eqb_spec c 58); lia.
Qed.

Lemma str_split_upper_hex (s : jsstring) :
  str_split COLON (map upper_hex s)
  = map (map upper_hex) (str_split COLON s).
Proof.
  induction s as [|c s IH]; [reflexivity|].
  cbn [map str_split]. rewrite upper_hex_colon, IH.
  destruct (c =? COLON); [reflexivity|].
  now destruct (str_split COLON s).
Qed.

(** X5.  The codec reads hex digits in either case: a stored text and
    the same text with its digits [a]..[f] in upper case decode
    alike. *)
Theorem decryptMessage_ignores_hex_case `{C : NodeCrypto}
    (env : option jsstring) (s : jsstring) (p : Process) :
  fst (decryptMessage env (map upper_hex s) p) = fst (decryptMessage env s p).
Proof.
  destruct (decryptMessage_decode_with env (map upper_hex s) p) as (-> & _).
  destruct (decryptMessage_decode_with env s p) as (-> & _).
  unfold decode_with. destruct (resolved_key env p) as [k|]; [|reflexivity].
  rewrite str_split_upper_hex.
  destruct (str_split COLON s) as [|a [|b [|c l]]]; try reflexivity.
  cbn [map]. now rewrite !from_hex_upper_hex.
Qed.

(** ** Conversations *)

(** X6.  A requester who has neither sent nor received a direct
    message gets the empty list, with status 200, whatever else the
    collection and the user store hold. *)
Theorem getConversations_no_messages (users : list User.t)
    (db : list Message) (me : ObjectId) :
  (forall m, In m db -> involves me m = false) ->
  getConversations users db me = Json 200 [].
Proof.
  intros H. unfold getConversations, conversations_messages, find.
  replace (filter (involves me) db) with (@nil Message); [reflexivity|].
  symmetry. induction db as [|d db IH]; [reflexivity|].
  cbn. rewrite (H d) by now left. apply IH. intros m Hm. apply H. now right.
Qed.

Lemma getConversations_no_messages_witness :
  getConversations users_without_bob sample_db 7 = Json 200 [].
Proof.
  apply getConversations_no_messages. intros m Hin. cbn in Hin.
  repeat (destruct Hin as [<-|Hin]; [reflexivity|]). contradiction.
Defined.

Lemma filter_filter {A} (f g : A -> bool) (l : list A) :
  filter f (filter g l) = filter (fun x => g x && f x) l.
Proof.
  induction l as [|a l IH]; [reflexivity|]. cbn.
  destruct (g a); cbn; [destruct (f a)|]; now rewrite IH.
Qed.

Lemma find_direct_only (q : Message -> bool) (db : list Message) :
  (forall m, q m = true -> is_direct m = true) ->
  filter q (filter is_direct db) = filter q db.
Proof.
  intros H. rewrite filter_filter. apply filter_ext. intros m.
  destruct (q m) eqn:E; [now rewrite (H m E) | apply andb_false_r].
Qed.

Lemma conversations_loop_counts (db1 db2 : list Message) (me : ObjectId)
    (msgs : list Populated) :
  (forall other, countDocuments (unread_from other me) db1
                 = countDocuments (unread_from other me) db2) ->
  forall acc, conversations_loop db1 me msgs acc
              = conversations_loop db2 me msgs acc.
Proof.
  intros H. induction msgs as [|msg msgs IH]; intros acc; [reflexivity|].
  cbn [conversations_loop].
  destruct (userId_doc msg) as [s|]; [|reflexivity].
  destruct (if (User._id s =? me)%nat then recipientId_doc msg else Some s)
    as [o|]; [|reflexivity].
  rewrite H. destruct (negb (Map_has (User._id o) acc)); apply IH.
Qed.

(** X7.  Team messages play no part in the conversation list: the
    response is the one the route gives on the collection with its
    team messages taken out. *)
Theorem getConversations_ignores_team_messages (users : list User.t)
    (db : list Message) (me : ObjectId) :
  getConversations users db me
  = getConversations users (filter is_direct db) me.
Proof.
  unfold getConversations, conversations_messages, find.
  rewrite find_direct_only
    by (intros m Hm; unfold involves in Hm;
        now apply andb_true_iff in Hm as [Hm _]).
  rewrite (conversations_loop_counts db (filter is_direct db)); [reflexivity|].
  intros other. unfold countDocuments.
  rewrite find_direct_only; [reflexivity|].
  intros m Hm. unfold unread_from, direct_from_to in Hm.
  apply andb_true_iff in Hm as [Hm _]. apply andb_true_iff in Hm as [Hm _].
  now apply andb_true_iff in Hm as [Hm _].
Qed.

(** ** Mark-read and the unread counts *)

Lemma mem_app_other (b me : ObjectId) (l : list ObjectId) :
  b <> me -> mem b (l ++ [me]) = mem b l.
Proof.
  intros Hne. unfold mem. rewrite existsb_app. cbn.
  apply Nat.eqb_neq in Hne. now rewrite Hne, !orb_false_r.
Qed.

Lemma direct_from_to_unique (a b a' b' : ObjectId) (m : Message) :
  direct_from_to a b m = true -> direct_from_to a' b' m = true ->
  a = a' /\ b = b'.
Proof.
  unfold direct_from_to. rewrite !andb_true_iff, !Nat.eqb_eq.
  intuition congruence.
Qed.

Lemma addToSet_unread_other (me other a b : ObjectId) (m : Message) :
  unread_from other me m = true ->
  (a =? other)%nat && (b =? me)%nat = false ->
  unread_from a b (fst (addToSet_readBy me m)) = unread_from a b m.
Proof.
  intros Hu Hab. unfold unread_from in *.
  apply andb_true_iff in Hu as [Hd Hm]. apply negb_true_iff in Hm.
  unfold addToSet_readBy. rewrite Hm. cbn [fst].
  unfold direct_from_to at 1. cbn [messageType userId recipientId readBy].
  fold (direct_from_to a b m).
  destruct (direct_from_to a b m) eqn:E; [|reflexivity]. cbn [andb].
  destruct (direct_from_to_unique _ _ _ _ _ E Hd) as [-> ->].
  now rewrite !Nat.eqb_refl in Hab.
Qed.

Lemma markAsRead_counts (me other a b : ObjectId) (db : list Message) :
  (a =? other)%nat && (b =? me)%nat = false ->
  countDocuments (unread_from a b) (snd (markAsRead me other db))
  = countDocuments (unread_from a b) db.
Proof.
  intros Hab. unfold markAsRead, countDocuments.
  induction db as [|d db IH]; [reflexivity|].
  cbn [updateMany].
  destruct (updateMany (unread_from other me) (addToSet_readBy me) db)
    as [db' n]. cbn [snd] in IH.
  destruct (unread_from other me d) eqn:Ed.
  - pose proof (addToSet_unread_other me other a b d Ed Hab) as Hd.
    destruct (addToSet_readBy me d) as [d' changed]. cbn [fst snd] in *.
    cbn [filter]. rewrite Hd.
    destruct (unread_from a b d); cbn [length]; now rewrite IH.
  - cbn [snd filter].
    destruct (unread_from a b d); cbn [length]; now rewrite IH.
Qed.

Lemma markAsRead_counts_all (me other a b : ObjectId) (db : list Message) :
  countDocuments (unread_from a b) (snd (markAsRead me other db))
  = if (a =? other)%nat && (b =? me)%nat then 0%nat
    else countDocuments (unread_from a b) db.
Proof.
  destruct ((a =? other)%nat && (b =? me)%nat) eqn:Hab.
  - apply andb_true_iff in Hab as [Ha Hb].
    apply Nat.eqb_eq in Ha, Hb. subst.
    destruct (updateMany_markAsRead me other db) as (_ & _ & H).
    unfold markAsRead.
    destruct (updateMany (unread_from other me) (addToSet_readBy me) db).
    exact H.
  - now apply markAsRead_counts.
Qed.

(** X8.  What mark-read does to the unread counts: after the reader
    [me] marks the thread with [other] read, the number of unread
    messages from [other] to [me] is zero, and the number of unread
    messages from any sender to any reader other than that pair is
    what it was. *)
Theorem markAsRead_unread_counts (me other a b : ObjectId)
    (db : list Message) :
  countDocuments (unread_from a b) (snd (markAsRead me other db))
  = if (a =? other)%nat && (b =? me)%nat then 0%nat
    else countDocuments (unread_from a b) db.
Proof. apply markAsRead_counts_all. Qed.

Lemma Forall2_In_l {A B} (P : A -> B -> Prop) l l' x :
  Forall2 P l l' -> In x l -> exists y, In y l' /\ P x y.
Proof.
  induction 1 as [|a b l l' Hab Hf IH]; cbn; [tauto|].
  intros [<-|Hx]; [eauto|]. destruct (IH Hx) as (y & Hy & Hp). eauto.
Qed.

Lemma markAsRead_marked (me other : ObjectId) (db : list Message) :
  Forall2 (marked me other) db (snd (markAsRead me other db)).
Proof.
  destruct (updateMany_markAsRead me other db) as (H & _).
  unfold markAsRead.
  now destruct (updateMany (unread_from other me) (addToSet_readBy me) db).
Qed.

Lemma marked_same_parties (me other : ObjectId) (m m' : Message) :
  marked me other m m' ->
  _id m' = _id m /\ messageType m' = messageType m
  /\ userId m' = userId m /\ recipientId m' = recipientId m.
Proof.
  unfold marked, same_but_readBy.
  destruct (direct_from_to other me m); [tauto | now intros ->].
Qed.

Lemma markAsRead_parties_present users db me reader other :
  every_party_present users db me ->
  every_party_present users (snd (markAsRead reader other db)) me.
Proof.
  intros Hp m' Hin Hi.
  destruct (Forall2_In_r _ _ _ _ (markAsRead_marked reader other db) Hin)
    as (m & Hm & Hmk).
  apply marked_same_parties in Hmk as (_ & Ht & Hu & Hr).
  unfold parties_present, involves in *. rewrite Ht, Hu, Hr in *.
  now apply Hp.
Qed.

Lemma getConversations_unread users db me :
  every_party_present users db me ->
  exists convs,
    getConversations users db me = Json 200 convs
    /\ forall c, In c convs ->
         unreadCount c = countDocuments (unread_from (conv_id c) me) db.
Proof.
  intros Hp. unfold getConversations, conversations_messages.
  destruct (conversations_loop_ok users db me
              (sort newest_first (find (involves me) db))
              (every_party_present_forallb _ _ _ Hp) [])
    as (entries & -> & Hf).
  cbn [app]. exists (map snd entries). split; [reflexivity|].
  intros c Hc. apply in_map_iff in Hc as (e & <- & He).
  destruct (Forall2_In_r _ _ _ _ Hf He) as (m & _ & _ & Hcm).
  now apply conversation_of_spec in Hcm.
Qed.

(** X9.  Opening a thread clears its badge: after the reader marks
    the thread with [other] read, the conversation list of the reader
    shows no unread message for [other], and for every other
    counterpart the unread count it had before. *)
Theorem markAsRead_clears_the_badge (users : list User.t)
    (db : list Message) (me other : ObjectId) :
  every_party_present users db me ->
  exists convs,
    getConversations users (snd (markAsRead me other db)) me = Json 200 convs
    /\ forall c, In c convs ->
         unreadCount c
         = if (conv_id c =? other)%nat then 0%nat
           else countDocuments (unread_from (conv_id c) me) db.
Proof.
  intros Hp.
  destruct (getConversations_unread users (snd (markAsRead me other db)) me
              (markAsRead_parties_present _ _ _ _ _ Hp))
    as (convs & Hg & Hu).
  exists convs. split; [exact Hg|]. intros c Hc.
  rewrite (Hu c Hc), markAsRead_counts_all, Nat.eqb_refl.
  now rewrite andb_true_r.
Qed.

Lemma markAsRead_clears_the_badge_witness :
  exists convs,
    getConversations sample_users (snd (markAsRead 2 1 sample_db)) 2
    = Json 200 convs
    /\ forall c, In c convs ->
         unreadCount c
         = if (conv_id c =? 1)%nat then 0%nat
           else countDocuments (unread_from (conv_id c) 2) sample_db.
Proof.
  apply (markAsRead_clears_the_badge sample_users sample_db 2 1).
  apply sample_parties_present.
Defined.

(** ** Sending *)

Lemma sendMessage_created `{NodeCrypto} env users me recipient body newId now
    p db sent :
  fst (sendMessage env users me recipient body newId now (p, db))
  = Json 201 sent ->
  exists t wire p',
    body = Str t
    /\ text_missing body = Ok false
    /\ User_findById users recipient <> None
    /\ encryptMessage env (trim t) p = (Ok wire, p')
    /\ sent_text sent = trim t
    /\ snd (sendMessage env users me recipient body newId now (p, db))
       = (p', db ++ [new_message newId me recipient wire now]).
Proof.
  unfold sendMessage. destruct body as [| |t|]; try discriminate.
  destruct (text_missing (Str t)) as [[|]|] eqn:Em; try discriminate.
  destruct (User_findById users recipient) eqn:Er; [|discriminate].
  destruct (encryptMessage env (trim t) p) as [[wire|e] p'] eqn:Ee;
    [|discriminate].
  fold (new_message newId me recipient wire now).
  destruct (Message_findById _ _); [|discriminate].
  cbn [fst snd]. intros [= <-]. exists t, wire, p'.
  repeat split; try reflexivity; first [exact Ee | discriminate].
Qed.

Lemma sendMessage_collection `{NodeCrypto} env users me recipient body newId
    now p db :
  snd (snd (sendMessage env users me recipient body newId now (p, db))) = db
  \/ exists wire,
       snd (snd (sendMessage env users me recipient body newId now (p, db)))
       = db ++ [new_message newId me recipient wire now].
Proof.
  unfold sendMessage. destruct body as [| |t|]; try now left.
  destruct (text_missing (Str t)) as [[|]|]; try now left.
  destruct (User_findById users recipient); [|now left].
  destruct (encryptMessage env (trim t) p) as [[wire|e] p']; [|now left].
  fold (new_message newId me recipient wire now).
  right. exists wire. now destruct (Message_findById _ _).
Qed.

Lemma countDocuments_app {D} (q : D -> bool) (l : list D) (d : D) :
  countDocuments q (l ++ [d])
  = (countDocuments q l + if q d then 1 else 0)%nat.
Proof.
  unfold countDocuments. rewrite filter_app, length_app. cbn.
  now destruct (q d).
Qed.

(** X10.  What a successful send does to the unread counts: the
    number of unread messages from the sender to the recipient grows
    by one -- unless the sender writes to himself, the sender being a
    reader of his own message -- and no other count changes. *)
Theorem sendMessage_unread_counts `{C : NodeCrypto}
    (env : option jsstring) (users : list User.t) (me recipient : ObjectId)
    (body : BodyValue) (newId : ObjectId) (now : Z)
    (p : Process) (db : list Message) (sent : Sent) (a b : ObjectId) :
  fst (sendMessage env users me recipient body newId now (p, db))
  = Json 201 sent ->
  countDocuments (unread_from a b)
    (snd (snd (sendMessage env users me recipient body newId now (p, db))))
  = (countDocuments (unread_from a b) db
     + if (a =? me)%nat && (b =? recipient)%nat && negb (me =? recipient)%nat
       then 1 else 0)%nat.
Proof.
  intros Hs.
  destruct (sendMessage_created _ _ _ _ _ _ _ _ _ _ Hs)
    as (t & wire & p' & _ & _ & _ & _ & _ & ->).
  cbn [snd]. rewrite countDocuments_app. f_equal.
  unfold unread_from, direct_from_to, new_message, mem. cbn.
  destruct (Nat.eqb_spec a me), (Nat.eqb_spec b recipient),
    (Nat.eqb_spec me recipient), (Nat.eqb_spec me a),
    (Nat.eqb_spec recipient b), (Nat.eqb_spec b me);
    subst; cbn; congruence.
Qed.

Lemma sendMessage_unread_counts_witness :
  countDocuments (unread_from 1 2)
    (snd (snd (@sendMessage toy None sample_users 1 2 (Str (js "hi")) 100 40
                 (initial zero_entropy, sample_db))))
  = (countDocuments (unread_from 1 2) sample_db
     + if (1 =? 1)%nat && (2 =? 2)%nat && negb (1 =? 2)%nat then 1 else 0)%nat.
Proof.
  eapply (@sendMessage_unread_counts toy None sample_users 1 2
            (Str (js "hi")) 100 40 (initial zero_entropy) sample_db).
  reflexivity.
Defined.

(** ** The collection under the four writes *)

Lemma NoDup_map_filter {A B} (f : A -> B) (q : A -> bool) (l : list A) :
  NoDup (map f l) -> NoDup (map f (filter q l)).
Proof.
  induction l as [|a l IH]; cbn; intros Hn; [constructor|].
  inversion Hn as [|? ? Ha Hl]; subst.
  destruct (q a); cbn; [|auto].
  constructor; [|auto]. intros Hin. apply Ha.
  apply in_map_iff in Hin as (x & Ex & Hx). apply filter_In in Hx as [Hx _].
  rewrite <- Ex. now apply in_map.
Qed.

Lemma markAsRead_ids (me other : ObjectId) (db : list Message) :
  map _id (snd (markAsRead me other db)) = map _id db.
Proof.
  apply Forall2_map_eq.
  eapply Forall2_impl; [|apply markAsRead_marked].
  intros m m' H. now apply marked_same_parties in H.
Qed.

(** X11.  Unique ids are kept by every write of the file: a send
    whose new id is fresh, mark-read, clear-between and delete-one
    all leave a collection whose ids are pairwise distinct. *)
Theorem writes_keep_unique_ids `{C : NodeCrypto}
    (env : option jsstring) (users : list User.t)
    (me other messageId newId : ObjectId) (body : BodyValue) (now : Z)
    (p : Process) (db : list Message) :
  unique_ids db ->
  (~ In newId (map _id db) ->
   unique_ids
     (snd (snd (sendMessage env users me other body newId now (p, db)))))
  /\ unique_ids (snd (markAsRead me other db))
  /\ unique_ids (snd (clearChat me other db))
  /\ unique_ids (snd (deleteMessage me messageId db)).
Proof.
  intros Hu. unfold unique_ids in *. split; [|split; [|split]].
  - intros Hfresh.
    destruct (sendMessage_collection env users me other body newId now p db)
      as [-> | (wire & ->)]; [assumption|].
    rewrite map_app. cbn. apply NoDup_app; [assumption | |].
    + constructor; [intros [] | constructor].
    + intros a Ha [<-|[]]. contradiction.
  - now rewrite markAsRead_ids.
  - now apply NoDup_map_filter.
  - rewrite deleteMessage_collection by assumption.
    now apply NoDup_map_filter.
Qed.

Lemma writes_keep_unique_ids_witness :
  unique_ids
    (snd (snd (@sendMessage toy None sample_users 1 2 (Str (js "hi")) 100 40
                 (initial zero_entropy, sample_db))))
  /\ unique_ids (snd (markAsRead 2 1 sample_db))
  /\ unique_ids (snd (clearChat 1 2 sample_db))
  /\ unique_ids (snd (deleteMessage 1 10 sample_db)).
Proof.
  destruct (@writes_keep_unique_ids toy None sample_users 1 2 10 100
              (Str (js "hi")) 40 (initial zero_entropy) sample_db
              sample_db_unique_ids) as (Hs & Hrest).
  destruct (@writes_keep_unique_ids toy None sample_users 2 1 10 100
              (Str (js "hi")) 40 (initial zero_entropy) sample_db
              sample_db_unique_ids) as (_ & Hm & _).
  split; [apply Hs; cbn; intuition discriminate|].
  split; [exact Hm|]. apply Hrest.
Defined.

(** ** Clearing and deleting *)

Lemma between_sym (a b : ObjectId) (m : Message) :
  between a b m = between b a m.
Proof. unfold between. f_equal. apply orb_comm. Qed.

Lemma filter_none {A} (q : A -> bool) (l : list A) :
  filter q (filter (fun x => negb (q x)) l) = [].
Proof.
  induction l as [|a l IH]; [reflexivity|]. cbn.
  destruct (q a) eqn:E; cbn; [|rewrite E]; exact IH.
Qed.

(** X12.  Clearing a chat is the same request from either side, it
    empties the thread for both users, and a second clear removes
    nothing. *)
Theorem clearChat_both_sides (me other : ObjectId) (db : list Message) :
  clearChat other me db = clearChat me other db
  /\ thread_messages (snd (clearChat me other db)) me other = []
  /\ thread_messages (snd (clearChat me other db)) other me = []
  /\ clearChat me other (snd (clearChat me other db))
     = (Json 200 0%nat, snd (clearChat me other db)).
Proof.
  unfold clearChat, deleteMany, thread_messages, find. cbn [snd].
  split; [|split; [|split]].
  - rewrite (filter_ext _ _ (between_sym other me)).
    now rewrite (filter_ext (fun d => negb (between other me d))
                   (fun d => negb (between me other d)))
      by (intros m; now rewrite between_sym).
  - now rewrite filter_none.
  - rewrite (filter_ext _ _ (between_sym other me)). now rewrite filter_none.
  - rewrite filter_none. cbn [length]. f_equal.
    apply filter_all. intros m Hm. now apply filter_In in Hm.
Qed.

Lemma find_all_false {A} (q : A -> bool) (l : list A) :
  (forall x, In x l -> q x = false) -> List.find q l = None.
Proof.
  induction l as [|a l IH]; cbn; intros H; [reflexivity|].
  rewrite (H a) by auto. apply IH. auto.
Qed.

(** X13.  A message is deleted once: on a collection with unique ids,
    after a delete that succeeded no document carries the id any
    more, and a second delete of the same id -- by anyone -- is
    answered 404 and changes nothing. *)
Theorem deleteMessage_twice (me anyone messageId : ObjectId)
    (db : list Message) :
  unique_ids db ->
  fst (deleteMessage me messageId db) = Json 200 messageId ->
  ~ In messageId (map _id (snd (deleteMessage me messageId db)))
  /\ deleteMessage anyone messageId (snd (deleteMessage me messageId db))
     = (JsonError 404 NOT_FOUND_OR_NOT_AUTHORIZED,
        snd (deleteMessage me messageId db)).
Proof.
  intros Hu Hok.
  assert (Hdb : snd (deleteMessage me messageId db)
                = filter (fun m => negb (_id m =? messageId)%nat) db).
  { unfold deleteMessage, findOne in *.
    destruct (List.find (own_direct messageId me) db); [|discriminate].
    cbn [snd]. now apply deleteOne_by_id. }
  assert (Hgone : ~ In messageId (map _id (snd (deleteMessage me messageId db)))).
  { rewrite Hdb. intros Hin. apply in_map_iff in Hin as (m & Em & Hm).
    apply filter_In in Hm as [_ Hm]. apply negb_true_iff, Nat.eqb_neq in Hm.
    contradiction. }
  split; [exact Hgone|].
  unfold deleteMessage at 1, findOne.
  rewrite find_all_false; [reflexivity|].
  intros x Hx. destruct (own_direct messageId anyone x) eqn:E; [|reflexivity].
  apply own_direct_iff in E as [E _]. exfalso. apply Hgone.
  subst messageId. now apply in_map.
Qed.

Lemma deleteMessage_twice_witness :
  ~ In 10%nat (map _id (snd (deleteMessage 1 10 sample_db)))
  /\ deleteMessage 2 10 (snd (deleteMessage 1 10 sample_db))
     = (JsonError 404 NOT_FOUND_OR_NOT_AUTHORIZED,
        snd (deleteMessage 1 10 sample_db)).
Proof.
  apply (deleteMessage_twice 1 2 10 sample_db sample_db_unique_ids).
  reflexivity.
Defined.

(** ** Sorting, in general *)

Lemma insert_sorted_perm {D} (before : D -> D -> bool) (d : D) (l : list D) :
  Permutation (insert_sorted before d l) (d :: l).
Proof.
  induction l as [|x l IH]; cbn; [reflexivity|].
  destruct (before d x); [reflexivity|].
  rewrite IH. apply perm_swap.
Qed.

Lemma sort_perm {D} (before : D -> D -> bool) (l : list D) :
  Permutation (sort before l) l.
Proof.
  induction l as [|x l IH]; cbn; [reflexivity|].
  rewrite insert_sorted_perm. now constructor.
Qed.

Section SortTotal.
Context {D : Type} (before : D -> D -> bool).
Hypothesis before_total : forall a b, before a b = true \/ before b a = true.
Hypothesis before_trans :
  forall a b c, before a b = true -> before b c = true -> before a c = true.

Lemma insert_sorted_sorted (d : D) (l : list D) :
  StronglySorted (fun a b => before a b = true) l ->
  StronglySorted (fun a b => before a b = true) (insert_sorted before d l).
Proof.
  induction 1 as [|y l Hs IH Hy]; cbn.
  - repeat constructor.
  - destruct (before d y) eqn:E.
    + constructor; [now constructor|]. constructor; [assumption|].
      rewrite Forall_forall in *. intros z Hz. eauto.
    + constructor; [assumption|].
      rewrite Forall_forall in *. intros z Hz.
      apply insert_sorted_In in Hz as [->|Hz]; [|auto].
      destruct (before_total d y); congruence.
Qed.

Lemma sort_sorted (l : list D) :
  StronglySorted (fun a b => before a b = true) (sort before l).
Proof.
  induction l as [|d l IH]; cbn; [constructor|].
  now apply insert_sorted_sorted.
Qed.
End SortTotal.

Lemma StronglySorted_weaken {A} (R R' : A -> A -> Prop) (l : list A) :
  (forall a b, R a b -> R' a b) -> StronglySorted R l -> StronglySorted R' l.
Proof.
  intros H. induction 1 as [|a l Hs IH Ha]; constructor; [assumption|].
  eapply Forall_impl; [|exact Ha]. auto.
Qed.

Lemma sort_oldest_first_sorted (l : list Message) :
  StronglySorted older (sort oldest_first l).
Proof.
  apply (StronglySorted_weaken (fun a b => oldest_first a b = true)).
  - intros a b H. now apply Z.leb_le in H.
  - apply sort_sorted; unfold oldest_first.
    + intros a b.
      destruct (Z.leb_spec (timestamp a) (timestamp b)); [now left|].
      right. apply Z.leb_le. lia.
    + intros a b c H1 H2. apply Z.leb_le in H1, H2. apply Z.leb_le. lia.
Qed.

(** ** Reading a thread, continued *)

Lemma decrypt_item_fields `{NodeCrypto} env me msg u p :
  exists item,
    fst (decrypt_item env me msg (Some u) p) = Ok item
    /\ item_id item = _id msg
    /\ item_text item = shown_text (resolved_key env p) (text msg)
    /\ item_isFromCurrentUser item = (User._id u =? me)%nat
    /\ item_sender item = u
    /\ resolved_key env (snd (decrypt_item env me msg (Some u) p))
       = resolved_key env p.
Proof.
  destruct (decryptMessage_decode_with env (text msg) p) as (Hd & Hk & _).
  unfold decrypt_item, try_catch, bind, shown_text. rewrite <- Hd.
  destruct (decryptMessage env (text msg) p) as [[plain|e] p'];
    cbn [fst snd] in *; eexists; repeat split; cbn; auto.
Qed.

Lemma map_M_decrypt_items_fields `{NodeCrypto} env users me
    (found : list Message) :
  (forall msg, In msg found -> User_findById users (userId msg) <> None) ->
  forall p,
  exists items p',
    map_M (fun msg => decrypt_item env me msg
                        (User_findById users (userId msg))) found p
    = (Ok items, p')
    /\ Forall2 (fun msg item =>
                  item_id item = _id msg
                  /\ item_text item
                     = shown_text (resolved_key env p) (text msg)
                  /\ item_isFromCurrentUser item = (userId msg =? me)%nat
                  /\ User_findById users (userId msg)
                     = Some (item_sender item))
               found items.
Proof.
  induction found as [|msg found IH]; intros Hs p.
  - exists [], p. split; [reflexivity | constructor].
  - cbn [map_M]. unfold bind at 1.
    destruct (User_findById users (userId msg)) as [u|] eqn:Eu;
      [|now destruct (Hs msg (or_introl eq_refl))].
    destruct (decrypt_item_fields env me msg u p)
      as (item & Hi & Hid & Ht & Hfl & Hse & Hk).
    destruct (decrypt_item env me msg (Some u) p) as [r p1].
    cbn [fst snd] in *. subst r.
    destruct (IH (fun m Hm => Hs m (or_intror Hm)) p1)
      as (items & p' & Hm & Hf).
    unfold bind. rewrite Hm. cbn.
    exists (item :: items), p'. split; [reflexivity|].
    constructor.
    + rewrite Hfl, Hse, (User_findById_id _ _ _ Eu). auto.
    + rewrite <- Hk. exact Hf.
Qed.

Lemma thread_senders_present users db me other u1 u2 :
  User_findById users me = Some u1 ->
  User_findById users other = Some u2 ->
  forall msg, In msg (thread_messages db me other) ->
              User_findById users (userId msg) <> None.
Proof.
  intros H1 H2 msg Hin. unfold thread_messages, find in Hin.
  apply sort_In, filter_In in Hin as [_ Hb].
  apply between_iff in Hb as [_ [[-> _]|[-> _]]]; congruence.
Qed.

(** X14.  For a requester and a counterpart who are in the user
    store, the thread the route returns holds the direct messages
    between the two, each once and no other, oldest first; every
    element carries the id of its message, the user document of its
    sender, and says whether the requester sent it. *)
Theorem getMessages_lists_the_thread `{C : NodeCrypto}
    (env : option jsstring) (users : list User.t) (me other : ObjectId)
    (requester counterpart_doc : User.t) (p : Process) (db : list Message) :
  User_findById users me = Some requester ->
  User_findById users other = Some counterpart_doc ->
  exists items found,
    fst (getMessages env users me other (p, db))
    = Json 200 {| messages := items; otherUser := counterpart_doc |}
    /\ Permutation found (filter (between me other) db)
    /\ StronglySorted older found
    /\ Forall2 (fun msg item =>
                  item_id item = _id msg
                  /\ item_isFromCurrentUser item = (userId msg =? me)%nat
                  /\ User_findById users (userId msg)
                     = Some (item_sender item))
               found items.
Proof.
  intros Hme Hother. unfold getMessages. rewrite Hother.
  destruct (map_M_decrypt_items_fields env users me
              (thread_messages db me other)
              (thread_senders_present _ _ _ _ _ _ Hme Hother) p)
    as (items & p' & -> & Hf).
  exists items, (thread_messages db me other).
  split; [reflexivity|]. split; [apply sort_perm|].
  split; [apply sort_oldest_first_sorted|].
  eapply Forall2_impl; [|exact Hf]. cbn. tauto.
Qed.

Lemma getMessages_lists_the_thread_witness :
  exists items found,
    fst (@getMessages toy None sample_users 2 1
           (initial zero_entropy, sample_db))
    = Json 200 {| messages := items; otherUser := alice |}
    /\ Permutation found (filter (between 2 1) sample_db)
    /\ StronglySorted older found
    /\ Forall2 (fun msg item =>
                  item_id item = _id msg
                  /\ item_isFromCurrentUser item = (userId msg =? 2)%nat
                  /\ User_findById sample_users (userId msg)
                     = Some (item_sender item))
               found items.
Proof.
  apply (@getMessages_lists_the_thread toy None sample_users 2 1 bob alice);
    reflexivity.
Defined.

(** X15.  What is sent is read back: when the key resolves and both
    users are in the user store, a send with a proper text succeeds,
    and the thread the recipient then fetches holds an element with
    the new id whose text is the trimmed text of the request and whose
    sender is the sender's user document. *)
Theorem sent_message_is_read_back `{C : NodeCrypto} {L : NodeCryptoLaws C}
    (env : option jsstring) (users : list User.t) (me recipient : ObjectId)
    (sender_doc recipient_doc : User.t) (t : jsstring) (newId : ObjectId)
    (now : Z) (key : Buffer) (p : Process) (db : list Message) :
  resolved_key env p = Some key ->
  well_formed (trim t) = true ->
  text_missing (Str t) = Ok false ->
  User_findById users me = Some sender_doc ->
  User_findById users recipient = Some recipient_doc ->
  exists sent items item,
    fst (sendMessage env users me recipient (Str t) newId now (p, db))
    = Json 201 sent
    /\ fst (getMessages env users recipient me
              (snd (sendMessage env users me recipient (Str t) newId now
                      (p, db))))
       = Json 200 {| messages := items; otherUser := sender_doc |}
    /\ In item items
    /\ item_id item = newId
    /\ item_text item = trim t
    /\ item_sender item = sender_doc.
Proof.
  intros Hk Hwf Hm Hme Hrc.
  destruct (encryptMessage_resolved env (trim t) p key Hk) as (p' & He & Hk').
  set (m := new_message newId me recipient
              (wire_of key (next_iv p) (trim t)) now).
  destruct (Message_findById_last db m) as (found & Hfound & _).
  assert (Hsend : sendMessage env users me recipient (Str t) newId now (p, db)
                  = (Json 201 {| sent_doc := found;
                                 sent_userId :=
                                   User_findById users (userId found);
                                 sent_text := trim t;
                                 sent_isFromCurrentUser := true |},
                     (p', db ++ [m]))).
  { unfold sendMessage. rewrite Hm, Hrc, He.
    fold (new_message newId me recipient
            (wire_of key (next_iv p) (trim t)) now). fold m.
    change (_id m) with newId in Hfound. cbn [_id new_message].
    unfold m in Hfound |- *. unfold new_message in Hfound |- *.
    cbn [_id] in Hfound |- *. now rewrite Hfound. }
  rewrite Hsend. cbn [fst snd]. unfold getMessages. rewrite Hme.
  destruct (map_M_decrypt_items_fields env users recipient
              (thread_messages (db ++ [m]) recipient me)
              (thread_senders_present _ _ _ _ _ _ Hrc Hme) p')
    as (items & p'' & -> & Hf).
  assert (Hin : In m (thread_messages (db ++ [m]) recipient me)).
  { unfold thread_messages, find. apply sort_In, filter_In. split.
    - apply in_app_iff. right. now left.
    - apply between_iff. split; [reflexivity|]. right. split; reflexivity. }
  destruct (Forall2_In_l _ _ _ _ Hf Hin) as (item & Hitem & Hid & Ht & _ & Hs).
  eexists _, items, item. split; [reflexivity|]. split; [reflexivity|].
  split; [exact Hitem|]. split; [exact Hid|]. split.
  - rewrite Ht, Hk'. unfold shown_text. cbn [text m new_message].
    rewrite decode_with_wire
      by eauto using resolved_key_length, next_iv_length.
    now rewrite toString_from_utf8.
  - cbn [userId m new_message] in Hs. congruence.
Qed.

Lemma sent_message_is_read_back_witness :
  exists sent items item,
    fst (@sendMessage toy None sample_users 1 2 (Str (js " hi ")) 100 40
           (initial zero_entropy, sample_db))
    = Json 201 sent
    /\ fst (@getMessages toy None sample_users 2 1
              (snd (@sendMessage toy None sample_users 1 2 (Str (js " hi "))
                      100 40 (initial zero_entropy, sample_db))))
       = Json 200 {| messages := items; otherUser := alice |}
    /\ In item items
    /\ item_id item = 100%nat
    /\ item_text item = js "hi"
    /\ item_sender item = alice.
Proof.
  apply (@sent_message_is_read_back toy toy_laws None sample_users 1 2
           alice bob (js " hi ") 100 40 DEFAULT_KEY (initial zero_entropy)
           sample_db); reflexivity.
Defined.

(** ** Listing the users *)

Lemma bytes_leb_total (a b : Buffer) :
  bytes_leb a b = true \/ bytes_leb b a = true.
Proof.
  revert b. induction a as [|x a IH]; intros [|y b]; cbn; auto.
  destruct (Z.ltb_spec (Z_of_byte x) (Z_of_byte y)); [now left|].
  destruct (Z.ltb_spec (Z_of_byte y) (Z_of_byte x)); [now right|].
  apply IH.
Qed.

Lemma bytes_leb_trans (a b c : Buffer) :
  bytes_leb a b = true -> bytes_leb b c = true -> bytes_leb a c = true.
Proof.
  revert b c. induction a as [|x a IH]; intros [|y b] [|z c]; cbn;
    try congruence.
  destruct (Z.ltb_spec (Z_of_byte x) (Z_of_byte y)),
    (Z.ltb_spec (Z_of_byte y) (Z_of_byte x)),
    (Z.ltb_spec (Z_of_byte y) (Z_of_byte z)),
    (Z.ltb_spec (Z_of_byte z) (Z_of_byte y)),
    (Z.ltb_spec (Z_of_byte x) (Z_of_byte z)),
    (Z.ltb_spec (Z_of_byte z) (Z_of_byte x));
    try congruence; try lia.
  apply IH.
Qed.

(** X16.  [GET /users] answers with the users other than the
    requester -- each of them once, the requester never -- in
    ascending order of their names. *)
Theorem getUsers_lists_the_others (users : list User.t) (me : ObjectId) :
  exists others,
    getUsers users me = Json 200 others
    /\ Permutation others (filter (not_me me) users)
    /\ (forall u, In u others <-> In u users /\ User._id u <> me)
    /\ StronglySorted name_le others.
Proof.
  unfold getUsers, find. eexists. split; [reflexivity|].
  split; [apply sort_perm|]. split.
  - intros u. rewrite sort_In, filter_In. unfold not_me.
    now rewrite negb_true_iff, Nat.eqb_neq.
  - apply sort_sorted; unfold name_ascending.
    + intros a b. apply bytes_leb_total.
    + intros a b c. apply bytes_leb_trans.
Qed.

(** ** The router *)

Lemma match_path_length (pat : list Router.Part) (path ps : list jsstring) :
  Router.match_path pat path = Some ps -> length path = length pat.
Proof.
  revert path ps. induction pat as [|part pat IH]; intros [|seg path] ps;
    cbn [Router.match_path]; try discriminate; [reflexivity| |].
  - destruct part; discriminate.
  - destruct part.
    + destruct (Router.same_text s seg); [|discriminate].
      intros H. cbn. f_equal. eauto.
    + destruct (truthy seg); [|discriminate].
      destruct (Router.match_path pat path) eqn:E; [|discriminate].
      intros _. cbn. f_equal. eauto.
Qed.

Lemma segments_clear (seg : jsstring) :
  truthy seg = true ->
  forallb (fun c => negb (c =? Router.SLASH)) seg = true ->
  Router.segments (js "/clear/" ++ seg) = Some [js "clear"; seg]
  /\ Router.segments (js "/clear/" ++ seg ++ js "/") = Some [js "clear"; seg].
Proof.
  intros Ht Hs. unfold Router.segments.
  change (js "/clear/" ++ seg) with (Router.SLASH :: js "clear" ++ Router.SLASH :: seg).
  change (js "/clear/" ++ seg ++ js "/")
    with (Router.SLASH :: js "clear" ++ Router.SLASH :: seg ++ [Router.SLASH]).
  cbv beta iota. rewrite Z.eqb_refl, !str_split_app by reflexivity.
  rewrite (str_split_no_sep _ seg Hs).
  replace (seg ++ [Router.SLASH]) with (seg ++ Router.SLASH :: [])
    by reflexivity.
  rewrite (str_split_app _ seg [] Hs).
  cbn [str_split last removelast]. now rewrite Ht.
Qed.

(** X17.  The two [DELETE] patterns never compete: no request path
    matches both ['/clear/:userId'] and ['/:messageId'].  A path
    [/clear/<seg>], with or without a slash at its end, matches the
    first alone and what it captures is [<seg>]. *)
Theorem delete_routes_do_not_overlap (path : jsstring) :
  (Router.captures Router.clear_pattern path = None
   \/ Router.captures Router.delete_pattern path = None)
  /\ (forall seg,
        truthy seg = true ->
        forallb (fun c => negb (c =? Router.SLASH)) seg = true ->
        path = js "/clear/" ++ seg \/ path = js "/clear/" ++ seg ++ js "/" ->
        Router.captures Router.clear_pattern path = Some [seg]
        /\ Router.captures Router.delete_pattern path = None).
Proof.
  split.
  - unfold Router.captures. destruct (Router.segments path) as [segs|];
      [|now left].
    destruct (Router.match_path Router.clear_pattern segs) as [ps|] eqn:E1;
      [|now left].
    destruct (Router.match_path Router.delete_pattern segs) as [ps'|] eqn:E2;
      [|now right].
    apply match_path_length in E1, E2. cbn in E1, E2. congruence.
  - intros seg Ht Hs Hp. unfold Router.captures.
    destruct (segments_clear seg Ht Hs) as [E1 E2].
    assert (E : Router.segments path = Some [js "clear"; seg])
      by (destruct Hp as [-> | ->]; assumption).
    rewrite E. unfold Router.clear_pattern, Router.delete_pattern.
    cbn [Router.match_path].
    replace (Router.same_text (js "clear") (js "clear")) with true
      by reflexivity.
    rewrite Ht. split; reflexivity.
Qed.

Lemma delete_routes_do_not_overlap_witness :
  Router.captures Router.clear_pattern (js "/clear/65f0c0ffee/")
  = Some [js "65f0c0ffee"]
  /\ Router.captures Router.delete_pattern (js "/clear/65f0c0ffee/") = None
  /\ Router.captures Router.delete_pattern (js "/Clear/") = Some [js "Clear"].
Proof.
  destruct (delete_routes_do_not_overlap (js "/clear/65f0c0ffee/"))
    as [_ H].
  destruct (H (js "65f0c0ffee") eq_refl eq_refl (or_intror eq_refl))
    as [H1 H2].
  split; [|split]; [exact H1 | exact H2 | reflexivity].
Defined.

(* ================================================================= *)
(** * Properties of the client *)

(** ** Trimming *)

Lemma trimStart_In (s : jsstring) (c : code_unit) :
  In c (trimStart s) -> In c s.
Proof.
  induction s as [|x s IH]; cbn; [tauto|].
  destruct (isWhiteSpace x); [auto | tauto].
Qed.

Lemma trimStart_length (s : jsstring) :
  (length (trimStart s) <= length s)%nat.
Proof.
  induction s as [|x s IH]; cbn; [lia|].
  destruct (isWhiteSpace x); cbn; lia.
Qed.

Lemma trimStart_head (s : jsstring) (c : code_unit) (r : jsstring) :
  trimStart s = c :: r -> isWhiteSpace c = false.
Proof.
  induction s as [|x s IH]; cbn; [discriminate|].
  destruct (isWhiteSpace x) eqn:E; [assumption|]. now intros [= <- _].
Qed.

Lemma trimStart_fixed (c : code_unit) (r : jsstring) :
  isWhiteSpace c = false -> trimStart (c :: r) = c :: r.
Proof. intros H. cbn. now rewrite H. Qed.

Lemma trimStart_idempotent (s : jsstring) :
  trimStart (trimStart s) = trimStart s.
Proof.
  destruct (trimStart s) as [|c r] eqn:E; [reflexivity|].
  apply trimStart_fixed. eapply trimStart_head; eassumption.
Qed.

Lemma trimStart_snoc (l : jsstring) (c : code_unit) :
  isWhiteSpace c = false -> trimStart (l ++ [c]) = trimStart l ++ [c].
Proof.
  intros H. induction l as [|x l IH]; cbn; [now rewrite H|].
  now destruct (isWhiteSpace x).
Qed.

Lemma trimEnd_In (s : jsstring) (c : code_unit) : In c (trimEnd s) -> In c s.
Proof.
  unfold trimEnd. intros H. apply in_rev in H. apply trimStart_In in H.
  now apply in_rev.
Qed.

Lemma trimEnd_length (s : jsstring) : (length (trimEnd s) <= length s)%nat.
Proof.
  unfold trimEnd. rewrite length_rev.
  pose proof (trimStart_length (rev s)). now rewrite length_rev in *.
Qed.

Lemma trimEnd_idempotent (s : jsstring) : trimEnd (trimEnd s) = trimEnd s.
Proof.
  unfold trimEnd. now rewrite rev_involutive, trimStart_idempotent.
Qed.

Lemma trimEnd_keeps_head (c : code_unit) (r : jsstring) :
  isWhiteSpace c = false ->
  exists r', trimEnd (c :: r) = c :: r'.
Proof.
  intros H. unfold trimEnd. cbn [rev]. rewrite trimStart_snoc by assumption.
  rewrite rev_app_distr. cbn. eauto.
Qed.

Lemma trim_In (s : jsstring) (c : code_unit) : In c (trim s) -> In c s.
Proof.
  unfold trim. intros H. now apply trimStart_In, trimEnd_In.
Qed.

Lemma trim_length (s : jsstring) : (length (trim s) <= length s)%nat.
Proof.
  unfold trim. pose proof (trimEnd_length (trimStart s)).
  pose proof (trimStart_length s). lia.
Qed.

Lemma trimStart_trim (s : jsstring) : trimStart (trim s) = trim s.
Proof.
  unfold trim. destruct (trimStart s) as [|c r] eqn:E; [reflexivity|].
  pose proof (trimStart_head _ _ _ E) as Hc.
  destruct (trimEnd_keeps_head c r Hc) as (r' & ->).
  now apply trimStart_fixed.
Qed.

Lemma trim_idempotent (s : jsstring) : trim (trim s) = trim s.
Proof.
  unfold trim at 1. rewrite trimStart_trim. unfold trim.
  apply trimEnd_idempotent.
Qed.

Lemma truthy_trim (s : jsstring) : truthy (trim s) = true -> truthy s = true.
Proof.
  destruct s; [discriminate | reflexivity].
Qed.

(** ** The tags of a new project *)

Lemma str_split_parts (sep : code_unit) (s part : jsstring) :
  In part (str_split sep s) -> ~ In sep part.
Proof.
  revert part. induction s as [|c s IH]; cbn [str_split]; intros part.
  - intros [<-|[]] [].
  - destruct (Z.eqb_spec c sep) as [->|Hne].
    + intros [<-|H]; [intros [] | now apply IH].
    + destruct (str_split sep s) as [|q qs] eqn:E; cbn.
      * intros [<-|[]] [H|[]]. congruence.
      * intros [<-|H].
        -- intros [Hc|Hq]; [congruence|]. apply (IH q); [now left | assumption].
        -- apply IH. now right.
Qed.

(** X19.  The tags read from the form field are clean: none is
    empty, none has white space at either end, none holds a comma,
    and each is a trimmed piece of the field between two commas. *)
Theorem tags_are_clean (value tag : jsstring) :
  In tag (CreateProjectModal.tags value) ->
  tag <> []
  /\ trim tag = tag
  /\ ~ In CreateProjectModal.COMMA tag
  /\ exists piece, In piece (str_split CreateProjectModal.COMMA value)
                   /\ tag = trim piece.
Proof.
  unfold CreateProjectModal.tags. intros H.
  apply filter_In in H as [H Ht]. apply in_map_iff in H as (piece & <- & Hp).
  split; [now destruct (trim piece)|].
  split; [apply trim_idempotent|]. split; [|eauto].
  intros Hc. apply trim_In in Hc.
  now apply (str_split_parts _ _ _ Hp).
Qed.

Lemma tags_are_clean_witness :
  js "react" <> []
  /\ trim (js "react") = js "react"
  /\ ~ In CreateProjectModal.COMMA (js "react")
  /\ exists piece,
       In piece (str_split CreateProjectModal.COMMA (js "web, react ,,nodejs"))
       /\ js "react" = trim piece.
Proof.
  apply (tags_are_clean (js "web, react ,,nodejs") (js "react")).
  cbv. tauto.
Defined.

Lemma no_sep_forallb (sep : code_unit) (t : jsstring) :
  ~ In sep t -> forallb (fun c => negb (c =? sep)) t = true.
Proof.
  intros H. apply forallb_forall. intros c Hc.
  apply negb_true_iff, Z.eqb_neq. intros ->. contradiction.
Qed.

Lemma str_split_join (sep : code_unit) (ts : list jsstring) :
  ts <> [] -> (forall t, In t ts -> ~ In sep t) ->
  str_split sep (join sep ts) = ts.
Proof.
  induction ts as [|t ts IH]; [congruence|]. intros _ H.
  destruct ts as [|t' ts].
  - cbn. apply str_split_no_sep, no_sep_forallb, H. now left.
  - change (join sep (t :: t' :: ts)) with (t ++ sep :: join sep (t' :: ts)).
    rewrite str_split_app by (apply no_sep_forallb, H; now left).
    f_equal. apply IH; [discriminate|]. intros x Hx. apply H. now right.
Qed.

(** X20.  Reading back what was joined: clean tags -- not empty,
    trimmed, without a comma -- joined with commas are read from the
    field as the very same list. *)
Theorem tags_of_joined_tags (ts : list jsstring) :
  (forall t, In t ts ->
     t <> [] /\ trim t = t /\ ~ In CreateProjectModal.COMMA t) ->
  CreateProjectModal.tags (join CreateProjectModal.COMMA ts) = ts.
Proof.
  intros H. unfold CreateProjectModal.tags.
  destruct ts as [|t ts]; [reflexivity|].
  rewrite str_split_join; [|discriminate | intros x Hx; now apply H].
  replace (map trim (t :: ts)) with (t :: ts).
  - apply filter_all. intros x Hx. destruct (H x Hx) as (Hne & _).
    now destruct x.
  - symmetry. rewrite <- (map_id (t :: ts)) at 2. apply map_ext_in.
    intros x Hx. now apply H.
Qed.

Lemma tags_of_joined_tags_witness :
  CreateProjectModal.tags
    (join CreateProjectModal.COMMA [js "web"; js "react"; js "node js"])
  = [js "web"; js "react"; js "node js"].
Proof.
  apply tags_of_joined_tags. intros t Ht. cbn [In] in Ht.
  repeat (destruct Ht as [<-|Ht];
          [split; [discriminate|]; split; [reflexivity|];
           cbv; intuition discriminate|]).
  contradiction.
Defined.

(** ** The status request form *)

Lemma or_else_nonempty (a : option jsstring) (b : jsstring) :
  b <> [] -> StatusRequestModal.or_else a b <> [].
Proof.
  intros Hb. unfold StatusRequestModal.or_else.
  destruct a as [[|c s]|]; cbn; [assumption | discriminate | assumption].
Qed.

Lemma errorMessage_nonempty (err : StatusRequestModal.AxiosError) :
  StatusRequestModal.errorMessage err <> [].
Proof.
  unfold StatusRequestModal.errorMessage.
  destruct (StatusRequestModal.response err).
  - repeat apply or_else_nonempty. discriminate.
  - destruct (StatusRequestModal.request err); [discriminate|].
    apply or_else_nonempty. discriminate.
Qed.

(** X21.  [handleSubmit] of the status request form calls [onSubmit]
    exactly when a status is selected and the trimmed reason has at
    least 10 characters, and then with the id of the task, the
    selected status and the trimmed reason.  After a call of
    [onSubmit] the form is no longer submitting and shows one message
    only: the success message (with the closing timer started) when
    [onSubmit] resolved, a non-empty error when it rejected.  When
    nothing is submitted the handler sets a non-empty error and leaves
    the rest of the state as it was: a success message shown before
    stays next to the error, and [isSubmitting] is not reset.  With
    the submit button enabled, the only validation error left is the
    one about the length of the reason. *)
Theorem handleSubmit_outcomes (task_id : ObjectId)
    (onSubmit : StatusRequestModal.Request -> option StatusRequestModal.AxiosError)
    (st : StatusRequestModal.State) :
  let st' := fst (StatusRequestModal.handleSubmit task_id onSubmit st) in
  let sub := snd (StatusRequestModal.handleSubmit task_id onSubmit st) in
  (sub = None
   <-> StatusRequestModal.requestedStatus st = []
       \/ (length (trim (StatusRequestModal.reason st)) < 10)%nat)
  /\ (forall req, sub = Some req ->
        StatusRequestModal.taskId req = task_id
        /\ StatusRequestModal.request_requestedStatus req
           = StatusRequestModal.requestedStatus st
        /\ StatusRequestModal.request_reason req
           = trim (StatusRequestModal.reason st)
        /\ StatusRequestModal.isSubmitting st' = false
        /\ match onSubmit req with
           | None => StatusRequestModal.success st' <> []
                     /\ StatusRequestModal.error st' = []
                     /\ StatusRequestModal.closing st' = true
           | Some err => StatusRequestModal.error st'
                         = StatusRequestModal.errorMessage err
                         /\ StatusRequestModal.error st' <> []
                         /\ StatusRequestModal.success st' = []
           end)
  /\ (sub = None ->
        StatusRequestModal.error st' <> []
        /\ StatusRequestModal.success st' = StatusRequestModal.success st
        /\ StatusRequestModal.isSubmitting st'
           = StatusRequestModal.isSubmitting st
        /\ StatusRequestModal.closing st' = StatusRequestModal.closing st
        /\ (StatusRequestModal.submit_disabled st = false ->
            StatusRequestModal.error st'
            = js "Reason must be at least 10 characters")).
Proof.
  cbv zeta. unfold StatusRequestModal.handleSubmit,
    StatusRequestModal.submit_disabled.
  destruct (StatusRequestModal.requestedStatus st) as [|c status] eqn:Es;
    cbn [truthy negb orb].
  - cbn [fst snd StatusRequestModal.set_error StatusRequestModal.error
           StatusRequestModal.success].
    split; [tauto|]. split; [discriminate|]. intros _.
    split; [discriminate|]. do 3 (split; [reflexivity|]).
    rewrite orb_true_r. discriminate.
  - destruct (trim (StatusRequestModal.reason st)) as [|r0 rs] eqn:Er;
      cbn [truthy negb].
    + cbn [fst snd StatusRequestModal.set_error StatusRequestModal.error
             StatusRequestModal.success length].
      split; [split; [right; lia | reflexivity]|].
      split; [discriminate|]. intros _.
      split; [discriminate|]. do 3 (split; [reflexivity|]).
      rewrite orb_true_r. discriminate.
    + destruct (Nat.ltb_spec (length (r0 :: rs)) 10) as [Hl|Hl].
      * cbn [fst snd StatusRequestModal.set_error StatusRequestModal.error
               StatusRequestModal.success].
        split; [split; [now right | reflexivity]|].
        split; [discriminate|]. intros _.
        split; [discriminate|]. do 3 (split; [reflexivity|]). reflexivity.
      * match goal with
        | |- context [onSubmit ?r] => set (req := r)
        end.
        destruct (onSubmit req) as [err|] eqn:Eo; cbn [fst snd].
        -- split; [split; [discriminate | intros [H|H]; [discriminate | lia]]|].
           split; [|discriminate].
           intros r [= <-]. rewrite Eo.
           cbn. repeat split. apply errorMessage_nonempty.
        -- split; [split; [discriminate | intros [H|H]; [discriminate | lia]]|].
           split; [|discriminate].
           intros r [= <-]. rewrite Eo.
           cbn. repeat split. discriminate.
Qed.

Lemma handleSubmit_outcomes_witness :
  StatusRequestModal.error
    (fst (StatusRequestModal.handleSubmit 7 (fun _ => None)
            form_after_success))
  = js "Reason must be at least 10 characters"
  /\ StatusRequestModal.success
       (fst (StatusRequestModal.handleSubmit 7 (fun _ => None)
               form_after_success))
     = js "Status change request submitted successfully!".
Proof.
  destruct (handleSubmit_outcomes 7 (fun _ => None) form_after_success)
    as (_ & _ & H).
  destruct (H eq_refl) as (_ & Hs & _ & _ & He).
  split; [apply He; reflexivity | exact Hs].
Defined.

(** ** The messages page *)

(** X22.  What [formatTimestamp] shows, for every pair of times: "Just
    now" below one minute (a time in the future included), whole
    minutes from 1 to 59, whole hours from 1 to 23, whole days from 1
    to 6 -- each the elapsed time rounded down -- and the date from
    seven days on. *)
Theorem formatTimestamp_ranges (now time : Z) :
  match MessagesPage.formatTimestamp now time with
  | MessagesPage.JustNow => now - time < 60000
  | MessagesPage.MinutesAgo n =>
      1 <= n <= 59 /\ n * 60000 <= now - time < (n + 1) * 60000
  | MessagesPage.HoursAgo n =>
      1 <= n <= 23 /\ n * 3600000 <= now - time < (n + 1) * 3600000
  | MessagesPage.DaysAgo n =>
      1 <= n <= 6 /\ n * 86400000 <= now - time < (n + 1) * 86400000
  | MessagesPage.LocaleDate d => d = time /\ 7 * 86400000 <= now - time
  end.
Proof.
  unfold MessagesPage.formatTimestamp. cbv zeta.
  destruct (Z.ltb_spec ((now - time) / 60000) 1);
    [Z.div_mod_to_equations; lia|].
  destruct (Z.ltb_spec ((now - time) / 60000) 60);
    [Z.div_mod_to_equations; lia|].
  destruct (Z.ltb_spec ((now - time) / 3600000) 24);
    [Z.div_mod_to_equations; lia|].
  destruct (Z.ltb_spec ((now - time) / 86400000) 7);
    Z.div_mod_to_equations; lia.
Qed.

(** X23.  The page and the server agree on what a message is: what
    [handleSendMessage] posts is the text of the input as typed, for
    the selected user, and the server never answers it with the 400
    of a missing text; when the server stores it, it stores and
    echoes the trimmed input. *)
Theorem page_never_posts_an_empty_message `{C : NodeCrypto}
    (newMessage : jsstring) (selectedUser : option User.t) (isSending : bool)
    (recipient : ObjectId) (body : BodyValue)
    (env : option jsstring) (users : list User.t) (me newId : ObjectId)
    (now : Z) (st : Process * list Message) :
  MessagesPage.handleSendMessage_posts newMessage selectedUser isSending
  = Some (recipient, body) ->
  body = Str newMessage
  /\ selectedUser <> None /\ isSending = false
  /\ text_missing body = Ok false
  /\ match fst (sendMessage env users me recipient body newId now st) with
     | Json status sent => status = 201 /\ sent_text sent = trim newMessage
     | JsonError status _ => status = 404 \/ status = 500
     end.
Proof.
  unfold MessagesPage.handleSendMessage_posts.
  destruct selectedUser as [u|]; [|discriminate].
  destruct (truthy (trim newMessage)) eqn:Et; [|discriminate].
  destruct isSending; [discriminate|]. cbn [negb orb].
  intros [= <- <-].
  assert (Hm : text_missing (Str newMessage) = Ok false).
  { unfold text_missing. rewrite Et, (truthy_trim _ Et). reflexivity. }
  repeat split; try discriminate; try assumption.
  destruct st as [p db]. unfold sendMessage. rewrite Hm.
  destruct (User_findById users (User._id u)); [|now left].
  destruct (encryptMessage env (trim newMessage) p) as [[wire|e] p'];
    [|now right].
  destruct (Message_findById _ _); [|now right].
  split; reflexivity.
Qed.

Lemma page_never_posts_an_empty_message_witness :
  Str (js " hi ") = Str (js " hi ")
  /\ Some bob <> None /\ false = false
  /\ text_missing (Str (js " hi ")) = Ok false
  /\ match fst (@sendMessage toy None sample_users 1 2 (Str (js " hi "))
                  100 40 (initial zero_entropy, sample_db)) with
     | Json status sent => status = 201 /\ sent_text sent = trim (js " hi ")
     | JsonError status _ => status = 404 \/ status = 500
     end.
Proof.
  apply (@page_never_posts_an_empty_message toy (js " hi ") (Some bob) false
           2 (Str (js " hi ")) None sample_users 1 100 40
           (initial zero_entropy, sample_db)).
  reflexivity.
Defined.

(** ** The base URL of the API *)

Lemma strip_trailing_slash_snoc (v : jsstring) :
  Api.strip_trailing_slash (v ++ [Api.SLASH]) = v.
Proof.
  unfold Api.strip_trailing_slash. rewrite rev_app_distr. cbn.
  apply rev_involutive.
Qed.

(** X24.  The base URL is never empty: an unset or empty variable, or
    one that is a single slash, gives the default; a value ending in
    a slash loses that one slash; any other value is used as it
    is. *)
Theorem API_URL_is_never_empty (VITE_API_URL : option jsstring) :
  Api.API_URL VITE_API_URL <> []
  /\ (VITE_API_URL = None \/ VITE_API_URL = Some []
      \/ VITE_API_URL = Some [Api.SLASH] ->
      Api.API_URL VITE_API_URL = Api.DEFAULT_API_URL)
  /\ (forall v, v <> [] -> VITE_API_URL = Some (v ++ [Api.SLASH]) ->
        Api.API_URL VITE_API_URL = v)
  /\ (forall v c, c <> Api.SLASH -> VITE_API_URL = Some (v ++ [c]) ->
        Api.API_URL VITE_API_URL = v ++ [c]).
Proof.
  split; [|split; [|split]].
  - unfold Api.API_URL. destruct VITE_API_URL as [v|]; [|discriminate].
    destruct (Api.strip_trailing_slash v); cbn; discriminate.
  - intros [-> | [-> | ->]]; reflexivity.
  - intros v Hv ->. unfold Api.API_URL.
    rewrite strip_trailing_slash_snoc. now destruct v.
  - intros v c Hc ->. unfold Api.API_URL, Api.strip_trailing_slash.
    rewrite rev_app_distr. cbn [rev app].
    apply Z.eqb_neq in Hc. rewrite Hc. now destruct v.
Qed.
